(** * Binary serialization of [Student] records (cpp_example_879d5a.cpp)

    A shallow embedding of [serializeStudent] and [deserializeStudent]
    together with the two stream operations they use, [std::ostream::write]
    and [std::istream::read], and the properties of the record format that
    follow from the code.

    Conventions.
    - A [char] is a [Byte.byte]; a [std::string] is a [list byte].
    - An [int] and a [size_t] are mathematical integers ([Z]); their object
      representation (the bytes [write] and [read] copy) depends on the
      platform and is described by an [ABI] record: [sizeof(int)],
      [sizeof(size_t)], the byte order, [std::string::max_size()] and the
      memory the allocator has for a string.
    - A [double] is represented by its IEEE-754 binary64 bit pattern, a [Z]
      in [0, 2^64): the code only ever copies its eight bytes.
    - Positions and byte counts are [nat]. *)

From Stdlib Require Import ZArith List Bool Lia.
From Stdlib Require Import Strings.Byte.
From Stdlib Require Strings.String.
Import String.StringSyntax.
Import ListNotations.

Local Open Scope Z_scope.

(** ** Bytes and fixed-width integers *)

Module Bytes.

Definition Z_of_byte (b : byte) : Z := Z.of_N (Byte.to_N b).

Definition byte_of_Z (z : Z) : byte :=
  match Byte.of_N (Z.to_N (z mod 256)) with
  | Some b => b
  | None => x00
  end.

(** Little-endian digits of [v] in base 256, [w] of them. *)
Fixpoint le_bytes (w : nat) (v : Z) : list byte :=
  match w with
  | O => []
  | S w' => byte_of_Z v :: le_bytes w' (v / 256)
  end.

Fixpoint le_value (bs : list byte) : Z :=
  match bs with
  | [] => 0
  | b :: bs' => Z_of_byte b + 256 * le_value bs'
  end.

(** [memcpy] of [bs] over the first bytes of an object whose bytes were
    [old]: the bytes beyond [length bs] keep their previous contents. *)
Definition store_prefix (bs old : list byte) : list byte :=
  bs ++ skipn (length bs) old.

End Bytes.

Import Bytes.

(** ** Platform parameters

    [serializeStudent] writes [sizeof(student.id)], [sizeof(student.gpa)] and
    [sizeof(nameLength)] raw bytes in host order, so the format depends on
    the platform the program is compiled for. *)

Record ABI := {
  int_bytes : nat;      (* sizeof(int) *)
  size_bytes : nat;     (* sizeof(size_t), also the width of std::streamsize *)
  big_endian : bool;    (* host byte order *)
  max_size : Z;         (* std::string::max_size() *)
  heap_bytes : Z        (* the longest string the allocator has memory for *)
}.

(** sizeof(double), IEEE-754 binary64. *)
Definition double_bytes : nat := 8.

(** [int] has at least 16 bits, and [max_size()] fits the positive half of
    [size_t], so that passing a string length as a [std::streamsize] keeps
    its value. *)
Definition abi_ok (abi : ABI) : Prop :=
  (2 <= int_bytes abi)%nat /\
  0 <= max_size abi < 2 ^ (8 * Z.of_nat (size_bytes abi) - 1).

(** x86-64 Linux with libstdc++, and 16 GiB the allocator can supply. *)
Definition lp64_le : ABI :=
  {| int_bytes := 4; size_bytes := 8; big_endian := false;
     max_size := 4611686018427387903; heap_bytes := 2 ^ 34 |}.

(** A 32-bit big-endian platform, with 256 MiB the allocator can supply. *)
Definition ilp32_be : ABI :=
  {| int_bytes := 4; size_bytes := 4; big_endian := true;
     max_size := 1073741823; heap_bytes := 2 ^ 28 |}.

(** ** The record *)

Record Student := {
  id : Z;              (* int id *)
  name : list byte;    (* std::string name *)
  gpa : Z              (* double gpa, as its binary64 bit pattern *)
}.

(** [Student()] *)
Definition Student_default : Student := {| id := 0; name := []; gpa := 0 |}.

(** ** Streams *)

Record ostream := {
  obuf : list byte;    (* the bytes the sink has received *)
  ofail : bool;
  oeof : bool;
  obad : bool
}.

Definition os_good (os : ostream) : bool :=
  negb (ofail os || oeof os || obad os).

(** [os.write(s, n)] with [bs] the [n] bytes at [s].  The sentry refuses a
    stream that is not good, and nothing is written then; the sentry of
    libstdc++ sets [failbit] when it finds [badbit], and leaves the flags as
    they are otherwise.  On a good stream the sink takes the bytes: the sinks
    modelled here, a buffer or a file with room, accept every byte, and a
    sink that turns bytes down (the stream would get [badbit]) is not
    modelled. *)
Definition ostream_write (os : ostream) (bs : list byte) : ostream :=
  if os_good os
  then {| obuf := obuf os ++ bs; ofail := ofail os; oeof := oeof os;
          obad := obad os |}
  else {| obuf := obuf os; ofail := ofail os || obad os; oeof := oeof os;
          obad := obad os |}.

(** One call of [read]: where the get position was, how many bytes were asked
    for, how many were extracted. *)
Record read_event := { at_pos : nat; wanted : nat; got : nat }.

Record istream := {
  ibuf : list byte;    (* the whole byte source *)
  ipos : nat;          (* get position *)
  ifail : bool;
  ieof : bool;
  ibad : bool;
  igcount : nat;
  ilog : list read_event   (* history of the calls of [read], oldest first *)
}.

Definition is_good (ins : istream) : bool :=
  negb (ifail ins || ieof ins || ibad ins).

(** [is.read(s, n)] on the stream [ins]: returns the bytes extracted (they are
    stored at [s]) and the stream afterwards.  A stream that is not good extracts nothing and
    gets [failbit]; reaching the end of the source before [n] bytes sets
    [failbit | eofbit], the bytes extracted until then are still stored. *)
Definition istream_read (ins : istream) (n : nat) : list byte * istream :=
  if is_good ins then
    let bs := firstn n (skipn (ipos ins) (ibuf ins)) in
    let short := (length bs <? n)%nat in
    (bs, {| ibuf := ibuf ins; ipos := (ipos ins + length bs)%nat;
            ifail := ifail ins || short; ieof := ieof ins || short;
            ibad := ibad ins; igcount := length bs;
            ilog := ilog ins ++
                    [{| at_pos := ipos ins; wanted := n; got := length bs |}] |})
  else
    ([], {| ibuf := ibuf ins; ipos := ipos ins;
            ifail := true; ieof := ieof ins; ibad := ibad ins; igcount := 0;
            ilog := ilog ins ++
                    [{| at_pos := ipos ins; wanted := n; got := 0 |}] |}).

(** A stream opened on [bs], and one opened on a fresh sink. *)
Definition istream_open (bs : list byte) : istream :=
  {| ibuf := bs; ipos := 0; ifail := false; ieof := false; ibad := false;
     igcount := 0; ilog := [] |}.

Definition ostream_open : ostream :=
  {| obuf := []; ofail := false; oeof := false; obad := false |}.

(** [s.resize(n)]: keeps the first [n] bytes, pads with ['\0']. *)
Definition string_resize (s : list byte) (n : nat) : list byte :=
  firstn n s ++ repeat x00 (n - length s).

Inductive exn := length_error | bad_alloc.

Inductive outcome := Returned | Threw (e : exn).

(** The stream after a [read] that found its [n] bytes. *)
Definition advance (ins : istream) (n : nat) : istream :=
  {| ibuf := ibuf ins; ipos := (ipos ins + n)%nat;
     ifail := false; ieof := false; ibad := false; igcount := n;
     ilog := ilog ins ++ [{| at_pos := ipos ins; wanted := n; got := n |}] |}.

(** The unread part of the source. *)
Definition unread (ins : istream) : list byte := skipn (ipos ins) (ibuf ins).

(** A stream that met the end of its source: failed, at end of file, nothing
    left to read. *)
Definition spent (ins : istream) : Prop :=
  ifail ins = true /\ ieof ins = true /\ unread ins = [].

(** What a call that only uses [read] can have done to a stream: the source
    is the same, the get position has not moved back nor past the end of the
    source, error flags that were set are still set. *)
Definition later_state (ins ins' : istream) : Prop :=
  ibuf ins' = ibuf ins /\
  (ipos ins <= ipos ins')%nat /\
  (ipos ins' <= Nat.max (ipos ins) (length (ibuf ins)))%nat /\
  (ifail ins = true -> ifail ins' = true) /\
  (ieof ins = true -> ieof ins' = true) /\
  ibad ins' = ibad ins /\
  (is_good ins = false -> ipos ins' = ipos ins).

(** ** Object representations and the two functions *)

Section Codec.

Variable abi : ABI.

(** The [w] bytes of an integer object in memory order. *)
Definition to_mem (w : nat) (v : Z) : list byte :=
  if big_endian abi then rev (le_bytes w v) else le_bytes w v.

Definition of_mem (bs : list byte) : Z :=
  le_value (if big_endian abi then rev bs else bs).

(** [int], two's complement. *)
Definition int_repr (v : Z) : list byte := to_mem (int_bytes abi) v.

Definition int_of_repr (bs : list byte) : Z :=
  let u := of_mem bs in
  if u <? 2 ^ (8 * Z.of_nat (int_bytes abi) - 1)
  then u else u - 2 ^ (8 * Z.of_nat (int_bytes abi)).

(** [size_t] *)
Definition size_repr (v : Z) : list byte := to_mem (size_bytes abi) v.
Definition size_of_repr (bs : list byte) : Z := of_mem bs.

(** [double], as its bit pattern *)
Definition double_repr (v : Z) : list byte := to_mem double_bytes v.
Definition double_of_repr (bs : list byte) : Z := of_mem bs.

(** void serializeStudent(std::ostream& os, const Student& student) *)
Definition serializeStudent (os : ostream) (student : Student) : ostream :=
  let os := ostream_write os (int_repr (id student)) in
  let os := ostream_write os (double_repr (gpa student)) in
  let nameLength := Z.of_nat (length (name student)) in
  let os := ostream_write os (size_repr nameLength) in
  ostream_write os (firstn (Z.to_nat nameLength) (name student)).

(** The caller's two objects after the call [serializeStudent(os, student)]:
    the stream, and the record, which the function receives as a reference to
    const and has no statement assigning to. *)
Definition serializeStudent_call (os : ostream) (student : Student)
  : ostream * Student :=
  (serializeStudent os student, student).

(** The longest length [s.resize] can reach in a call for the string [s]
    while the stream is [ins].  No memory is asked for up to the length [s]
    has, the allocator supplies up to [heap_bytes], and a program that is
    handed a record is taken to have the memory for the bytes the source
    still holds. *)
Definition resize_limit (s : list byte) (ins : istream) : Z :=
  Z.max (heap_bytes abi)
        (Z.max (Z.of_nat (length s)) (Z.of_nat (length (unread ins)))).

(** void deserializeStudent(std::istream& is, Student& student), with
    [ins] for the stream [is].

    [student] is updated in place, so the function returns the stream and the
    object as the caller sees them afterwards, also when [resize] throws.
    [resize] throws [std::length_error] for a length above [max_size()] and
    [std::bad_alloc] for one it has no memory for (above [resize_limit]).
    [nameLength] is declared without an initialiser: [junk] is whatever value
    its storage holds before the third [read]. *)
Definition deserializeStudent (junk : Z) (ins : istream) (student : Student)
  : outcome * istream * Student :=
  let '(b, ins) := istream_read ins (int_bytes abi) in
  let student :=
    {| id := int_of_repr (store_prefix b (int_repr (id student)));
       name := name student; gpa := gpa student |} in
  let '(b, ins) := istream_read ins double_bytes in
  let student :=
    {| id := id student; name := name student;
       gpa := double_of_repr (store_prefix b (double_repr (gpa student))) |} in
  let '(b, ins) := istream_read ins (size_bytes abi) in
  let nameLength := size_of_repr (store_prefix b (size_repr junk)) in
  if max_size abi <? nameLength then (Threw length_error, ins, student)
  else if resize_limit (name student) ins <? nameLength
  then (Threw bad_alloc, ins, student)
  else
    let student :=
      {| id := id student;
         name := string_resize (name student) (Z.to_nat nameLength);
         gpa := gpa student |} in
    let '(b, ins) := istream_read ins (Z.to_nat nameLength) in
    let student :=
      {| id := id student; name := store_prefix b (name student);
         gpa := gpa student |} in
    (Returned, ins, student).

(** The byte sequence of a record: what [serializeStudent] leaves in a fresh
    sink; and reading a record back from a byte sequence into an object. *)
Definition encode (r : Student) : list byte :=
  obuf (serializeStudent ostream_open r).

Definition decode (junk : Z) (bs : list byte) (dst : Student)
  : outcome * istream * Student :=
  deserializeStudent junk (istream_open bs) dst.

(** The values the fields of a record can hold on this platform. *)
Definition int_range (v : Z) : Prop :=
  - 2 ^ (8 * Z.of_nat (int_bytes abi) - 1) <= v
    < 2 ^ (8 * Z.of_nat (int_bytes abi) - 1).

Definition double_range (v : Z) : Prop := 0 <= v < 2 ^ 64.

Definition valid_Student (r : Student) : Prop :=
  int_range (id r) /\ double_range (gpa r) /\
  Z.of_nat (length (name r)) <= max_size abi.

(** Width of the three fixed fields. *)
Definition header_bytes : nat :=
  (int_bytes abi + double_bytes + size_bytes abi)%nat.

(** The four pieces of a record in a byte source. *)
Definition record_bytes (idb gpab lenb payload : list byte) : Prop :=
  length idb = int_bytes abi /\ length gpab = double_bytes /\
  length lenb = size_bytes abi /\
  size_of_repr lenb = Z.of_nat (length payload) /\
  Z.of_nat (length payload) <= max_size abi.

End Codec.

(** ** The record of [main] *)

(** 3.85 as a binary64: sign 0, biased exponent 0x400, fraction
    0xECCCCCCCCCCCD. *)
Definition gpa_3_85 : Z := 0x400ECCCCCCCCCCCD.

Definition alice : Student :=
  {| id := 101; name := String.list_byte_of_string "Alice Smith";
     gpa := gpa_3_85 |}.

(** ** [main]: serialize, read back, compare *)

(** The three comparisons of step 4.  [gpa] is compared on bit patterns, which
    agrees with [==] on [double] for every value that is neither a NaN nor a
    zero. *)
Definition Student_eqb (a b : Student) : bool :=
  (id a =? id b) &&
  (if list_eq_dec Byte.byte_eq_dec (name a) (name b) then true else false) &&
  (gpa a =? gpa b).

(** [main] once both files have opened: the contents of students.bin after
    step 2, the two objects, and whether step 4 printed
    "Verification successful!".  [None]: an exception left
    [deserializeStudent] and, uncaught, ended the program. *)
Record main_result := {
  students_bin : list byte;
  originalStudent : Student;
  deserializedStudent : Student;
  verified : bool
}.

Definition main (abi : ABI) (junk : Z) : option main_result :=
  let originalStudent := alice in
  let outFile := serializeStudent abi ostream_open originalStudent in
  let deserializedStudent := Student_default in
  match deserializeStudent abi junk (istream_open (obuf outFile))
                           deserializedStudent with
  | (Returned, _, deserializedStudent) =>
      Some {| students_bin := obuf outFile;
              originalStudent := originalStudent;
              deserializedStudent := deserializedStudent;
              verified := Student_eqb originalStudent deserializedStudent |}
  | (Threw _, _, _) => None
  end.

(** ** Data for the concrete runs *)

(** Ten thousand name bytes: zero bytes, the two bytes of a UTF-8 e-acute and
    a letter, repeated. *)
Definition long_name : list byte :=
  concat (repeat [x00; xc3; xa9; x41] 2500).

(** id -7, gpa -0.5 *)
Definition long_record : Student :=
  {| id := -7; name := long_name; gpa := 0xBFE0000000000000 |}.

(** A name with a zero byte in the middle. *)
Definition nul_record : Student :=
  {| id := 5; name := [x41; x00; x42]; gpa := 0 |}.

(** An object that already holds values, and a sink that already holds
    bytes. *)
Definition prior : Student :=
  {| id := -1; name := [x5a; x5a; x5a; x5a; x5a; x5a; x5a; x5a]; gpa := 1 |}.

Definition used_sink : ostream :=
  {| obuf := [x01; x02]; ofail := false; oeof := false; obad := false |}.

(** id -12, name "Bob", gpa -3.5 *)
Definition bob : Student :=
  {| id := -12; name := [x42; x6f; x62]; gpa := 0xC00C000000000000 |}.

(** A source on which an earlier read has failed, and a sink that is not
    good (at end of file). *)
Definition failed_source : istream :=
  {| ibuf := [x01; x02; x03; x04; x05]; ipos := 2; ifail := true;
     ieof := false; ibad := false; igcount := 0; ilog := [] |}.

Definition failed_sink : ostream :=
  {| obuf := [x01; x02]; ofail := false; oeof := true; obad := false |}.

(** * Proofs *)

(** ** Bytes and fixed-width integers *)

Module BytesFacts.

Lemma Z_of_byte_range b : 0 <= Z_of_byte b < 256.
Proof.
  unfold Z_of_byte. pose proof (Byte.to_N_bounded b) as Hb.
  split; [apply N2Z.is_nonneg|]. lia.
Qed.

Lemma Z_of_byte_of_Z z : Z_of_byte (byte_of_Z z) = z mod 256.
Proof.
  unfold byte_of_Z, Z_of_byte.
  assert (Hr : 0 <= z mod 256 < 256) by (apply Z.mod_pos_bound; lia).
  destruct (Byte.of_N (Z.to_N (z mod 256))) as [b|] eqn:E.
  - apply Byte.to_of_N in E. rewrite E. apply Z2N.id. lia.
  - apply Byte.of_N_None_iff in E. lia.
Qed.

Lemma byte_of_Z_of_byte b : byte_of_Z (Z_of_byte b) = b.
Proof.
  unfold byte_of_Z. rewrite Z.mod_small by apply Z_of_byte_range.
  unfold Z_of_byte. rewrite N2Z.id, Byte.of_to_N. reflexivity.
Qed.

Lemma le_bytes_length w : forall v, length (le_bytes w v) = w.
Proof. induction w as [|w IH]; intro v; simpl; [|rewrite IH]; reflexivity. Qed.

Lemma le_value_range bs : 0 <= le_value bs < 256 ^ Z.of_nat (length bs).
Proof.
  induction bs as [|b bs IH].
  - simpl. lia.
  - cbn [le_value length]. rewrite Nat2Z.inj_succ, Z.pow_succ_r by lia.
    pose proof (Z_of_byte_range b). lia.
Qed.

Lemma le_value_bytes w : forall v,
  le_value (le_bytes w v) = v mod 256 ^ Z.of_nat w.
Proof.
  induction w as [|w IH]; intro v.
  - simpl. symmetry. apply Z.mod_1_r.
  - cbn [le_bytes le_value]. rewrite IH, Z_of_byte_of_Z.
    rewrite Nat2Z.inj_succ, Z.pow_succ_r by lia.
    rewrite Z.rem_mul_r by lia. reflexivity.
Qed.

Lemma le_bytes_value bs : le_bytes (length bs) (le_value bs) = bs.
Proof.
  induction bs as [|b bs IH]; [reflexivity|].
  cbn [length le_bytes le_value].
  pose proof (Z_of_byte_range b) as Hb.
  f_equal.
  - rewrite <- (byte_of_Z_of_byte b) at 2. unfold byte_of_Z.
    replace ((Z_of_byte b + 256 * le_value bs) mod 256)
      with (Z_of_byte b mod 256); [reflexivity|].
    rewrite (Z.mul_comm 256), Z.mod_add by lia. reflexivity.
  - replace ((Z_of_byte b + 256 * le_value bs) / 256) with (le_value bs);
      [exact IH|].
    rewrite (Z.mul_comm 256), Z.div_add by lia.
    rewrite Z.div_small by lia. lia.
Qed.

Lemma le_bytes_periodic w : forall v q,
  le_bytes w (v + 256 ^ Z.of_nat w * q) = le_bytes w v.
Proof.
  induction w as [|w IH]; intros v q; [reflexivity|].
  cbn [le_bytes]. rewrite Nat2Z.inj_succ, Z.pow_succ_r by lia.
  replace (v + 256 * 256 ^ Z.of_nat w * q)
    with (v + (256 ^ Z.of_nat w * q) * 256) by lia.
  f_equal.
  - unfold byte_of_Z. rewrite Z.mod_add by lia. reflexivity.
  - rewrite Z.div_add by lia. apply IH.
Qed.

Lemma store_prefix_full bs old :
  (length old <= length bs)%nat -> store_prefix bs old = bs.
Proof.
  intro H. unfold store_prefix. rewrite skipn_all2 by exact H.
  apply app_nil_r.
Qed.

Lemma store_prefix_length bs old :
  (length bs <= length old)%nat ->
  length (store_prefix bs old) = length old.
Proof.
  intro H. unfold store_prefix. rewrite length_app, length_skipn. lia.
Qed.

End BytesFacts.

Import BytesFacts.

(** ** Stream lemmas *)

Lemma is_good_flags ins :
  is_good ins = true ->
  ifail ins = false /\ ieof ins = false /\ ibad ins = false.
Proof.
  unfold is_good. destruct (ifail ins), (ieof ins), (ibad ins);
    simpl; intro H; try discriminate H; auto.
Qed.

Lemma advance_good ins n : is_good (advance ins n) = true.
Proof. reflexivity. Qed.

Lemma advance_unread ins bs rest :
  unread ins = bs ++ rest -> unread (advance ins (length bs)) = rest.
Proof.
  unfold unread. cbn [advance ibuf ipos]. intro H.
  rewrite Nat.add_comm, <- skipn_skipn, H.
  rewrite skipn_app, skipn_all, Nat.sub_diag. reflexivity.
Qed.

Lemma istream_read_exact ins bs rest :
  is_good ins = true -> unread ins = bs ++ rest ->
  istream_read ins (length bs) = (bs, advance ins (length bs)).
Proof.
  intros Hg Hu. unfold istream_read. rewrite Hg.
  destruct (is_good_flags ins Hg) as (Hf & He & Hb).
  unfold unread in Hu. rewrite Hu.
  rewrite firstn_app, firstn_all, Nat.sub_diag, firstn_O, app_nil_r.
  rewrite Nat.ltb_irrefl, Hf, He, Hb. reflexivity.
Qed.

Lemma istream_read_n ins n bs rest :
  is_good ins = true -> unread ins = bs ++ rest -> length bs = n ->
  istream_read ins n = (bs, advance ins n) /\
  unread (advance ins n) = rest.
Proof.
  intros Hg Hu Hn. subst n. split.
  - apply istream_read_exact with (rest := rest); assumption.
  - apply advance_unread. exact Hu.
Qed.

(** A [read] that meets the end of the source first: it takes what is left
    and leaves the stream failed at the end of the source. *)
Lemma istream_read_short ins n :
  is_good ins = true -> (length (unread ins) < n)%nat ->
  exists ins',
    istream_read ins n = (unread ins, ins') /\
    ibuf ins' = ibuf ins /\
    ipos ins' = (ipos ins + length (unread ins))%nat /\
    ifail ins' = true /\ ieof ins' = true /\ ibad ins' = false.
Proof.
  intros Hg Hn. unfold istream_read. rewrite Hg.
  destruct (is_good_flags ins Hg) as (Hf & He & Hb).
  fold (unread ins). rewrite firstn_all2 by lia.
  apply Nat.ltb_lt in Hn. rewrite Hn, Hf, He, Hb.
  eexists. split; [reflexivity|]. cbn. auto.
Qed.

(** Once the stream has failed, [read] extracts nothing and the position and
    the flags stay. *)
Lemma istream_read_failed ins n :
  ifail ins = true ->
  exists ins',
    istream_read ins n = ([], ins') /\
    ibuf ins' = ibuf ins /\ ipos ins' = ipos ins /\
    ifail ins' = true /\ ieof ins' = ieof ins /\ ibad ins' = ibad ins.
Proof.
  intro Hf. unfold istream_read, is_good. rewrite Hf. cbn.
  eexists. split; [reflexivity|]. cbn. auto.
Qed.

Lemma ostream_write_good os bs :
  os_good os = true ->
  ostream_write os bs =
    {| obuf := obuf os ++ bs; ofail := ofail os; oeof := oeof os;
       obad := obad os |}.
Proof. intro H. unfold ostream_write. rewrite H. reflexivity. Qed.

Lemma ostream_write_keeps_good os bs :
  os_good (ostream_write os bs) = os_good os.
Proof.
  unfold ostream_write. destruct (os_good os) eqn:E; [exact E|].
  unfold os_good in *. cbn [ofail oeof obad].
  destruct (ofail os), (oeof os), (obad os); try reflexivity; discriminate E.
Qed.

Lemma string_resize_length s n : length (string_resize s n) = n.
Proof.
  unfold string_resize. rewrite length_app, length_firstn, repeat_length. lia.
Qed.

(** ** Object representations *)

Section Repr.

Variable abi : ABI.

Lemma to_mem_length w v : length (to_mem abi w v) = w.
Proof.
  unfold to_mem. destruct (big_endian abi);
    [rewrite length_rev|]; apply le_bytes_length.
Qed.

Lemma of_to_mem w v : of_mem abi (to_mem abi w v) = v mod 256 ^ Z.of_nat w.
Proof.
  unfold of_mem, to_mem. destruct (big_endian abi);
    [rewrite rev_involutive|]; apply le_value_bytes.
Qed.

Lemma to_of_mem bs : to_mem abi (length bs) (of_mem abi bs) = bs.
Proof.
  unfold of_mem, to_mem. destruct (big_endian abi).
  - rewrite <- (length_rev bs), le_bytes_value. apply rev_involutive.
  - apply le_bytes_value.
Qed.

Lemma of_mem_range bs : 0 <= of_mem abi bs < 256 ^ Z.of_nat (length bs).
Proof.
  unfold of_mem. destruct (big_endian abi).
  - rewrite <- (length_rev bs). apply le_value_range.
  - apply le_value_range.
Qed.

Lemma pow_256 (w : nat) : 256 ^ Z.of_nat w = 2 ^ (8 * Z.of_nat w).
Proof. change 256 with (2 ^ 8). rewrite <- Z.pow_mul_r by lia. reflexivity. Qed.

Lemma pow_half (k : Z) : 1 <= k -> 2 ^ k = 2 * 2 ^ (k - 1).
Proof.
  intro H. rewrite <- Z.pow_succ_r by lia. f_equal. lia.
Qed.

Lemma int_of_repr_repr v :
  (1 <= int_bytes abi)%nat -> int_range abi v ->
  int_of_repr abi (int_repr abi v) = v.
Proof.
  intros Hw Hv. unfold int_of_repr, int_repr, int_range in *.
  rewrite of_to_mem, pow_256.
  set (k := 8 * Z.of_nat (int_bytes abi)) in *.
  assert (Hk : 2 ^ k = 2 * 2 ^ (k - 1)) by (apply pow_half; lia).
  assert (Hp : 0 < 2 ^ (k - 1)) by (apply Z.pow_pos_nonneg; lia).
  destruct (Z_lt_le_dec v 0) as [Hneg|Hpos].
  - replace (v mod 2 ^ k) with (v + 2 ^ k).
    + destruct (Z.ltb_spec (v + 2 ^ k) (2 ^ (k - 1))); lia.
    + apply Z.mod_unique with (q := -1); lia.
  - rewrite Z.mod_small by lia.
    destruct (Z.ltb_spec v (2 ^ (k - 1))); lia.
Qed.

Lemma int_of_repr_range bs :
  (1 <= int_bytes abi)%nat -> length bs = int_bytes abi ->
  int_range abi (int_of_repr abi bs).
Proof.
  intros Hw Hl. unfold int_of_repr, int_range.
  pose proof (of_mem_range bs) as Hr. rewrite Hl, pow_256 in Hr.
  set (k := 8 * Z.of_nat (int_bytes abi)) in *.
  assert (Hk : 2 ^ k = 2 * 2 ^ (k - 1)) by (apply pow_half; lia).
  destruct (Z.ltb_spec (of_mem abi bs) (2 ^ (k - 1))); lia.
Qed.

Lemma int_repr_of_repr bs :
  length bs = int_bytes abi -> int_repr abi (int_of_repr abi bs) = bs.
Proof.
  intro Hl. unfold int_repr, int_of_repr.
  assert (E : to_mem abi (int_bytes abi) (of_mem abi bs) = bs)
    by (rewrite <- Hl; apply to_of_mem).
  destruct (of_mem abi bs <? _); [exact E|].
  rewrite <- E at 2. rewrite <- pow_256. unfold to_mem.
  replace (of_mem abi bs - 256 ^ Z.of_nat (int_bytes abi))
    with (of_mem abi bs + 256 ^ Z.of_nat (int_bytes abi) * (-1)) by lia.
  rewrite le_bytes_periodic. reflexivity.
Qed.

Lemma double_of_repr_repr v :
  double_range v -> double_of_repr abi (double_repr abi v) = v.
Proof.
  intro Hv. unfold double_of_repr, double_repr, double_range in *.
  rewrite of_to_mem. apply Z.mod_small. exact Hv.
Qed.

Lemma size_of_repr_repr v :
  0 <= v < 2 ^ (8 * Z.of_nat (size_bytes abi)) ->
  size_of_repr abi (size_repr abi v) = v.
Proof.
  intro Hv. unfold size_of_repr, size_repr.
  rewrite of_to_mem, pow_256. apply Z.mod_small. exact Hv.
Qed.

End Repr.

(** ** Facts about the two functions *)

Section CodecFacts.

Variable abi : ABI.
Hypothesis abi_wf : abi_ok abi.

Lemma serializeStudent_good os r :
  os_good os = true ->
  serializeStudent abi os r =
    {| obuf := obuf os ++ int_repr abi (id r) ++ double_repr abi (gpa r) ++
               size_repr abi (Z.of_nat (length (name r))) ++ name r;
       ofail := ofail os; oeof := oeof os; obad := obad os |}.
Proof.
  intro Hg. unfold serializeStudent.
  rewrite !ostream_write_good
    by (rewrite ?ostream_write_keeps_good; exact Hg).
  cbn [obuf ofail oeof obad].
  rewrite Nat2Z.id, firstn_all, <- !app_assoc. reflexivity.
Qed.

Lemma encode_layout r :
  encode abi r =
    int_repr abi (id r) ++ double_repr abi (gpa r) ++
    size_repr abi (Z.of_nat (length (name r))) ++ name r.
Proof.
  unfold encode. rewrite serializeStudent_good by reflexivity. reflexivity.
Qed.

Lemma encode_length r :
  length (encode abi r) = (header_bytes abi + length (name r))%nat.
Proof.
  rewrite encode_layout, !length_app.
  unfold int_repr, double_repr, size_repr, header_bytes.
  rewrite !to_mem_length. lia.
Qed.

Lemma max_size_fits :
  max_size abi < 2 ^ (8 * Z.of_nat (size_bytes abi)).
Proof.
  destruct abi_wf as (_ & H0 & H1).
  assert (1 <= 8 * Z.of_nat (size_bytes abi)).
  { destruct (Z_lt_le_dec (8 * Z.of_nat (size_bytes abi) - 1) 0) as [Hn|]; [|lia].
    rewrite Z.pow_neg_r in H1 by exact Hn. lia. }
  rewrite (pow_half (8 * Z.of_nat (size_bytes abi))) by lia.
  assert (0 < 2 ^ (8 * Z.of_nat (size_bytes abi) - 1))
    by (apply Z.pow_pos_nonneg; lia).
  lia.
Qed.

Lemma encode_record_bytes r :
  Z.of_nat (length (name r)) <= max_size abi ->
  record_bytes abi (int_repr abi (id r)) (double_repr abi (gpa r))
                   (size_repr abi (Z.of_nat (length (name r)))) (name r).
Proof.
  intro Hn. unfold record_bytes, int_repr, double_repr, size_repr.
  rewrite !to_mem_length. repeat split; try assumption.
  apply size_of_repr_repr. pose proof max_size_fits. lia.
Qed.

(** Four pieces of the right widths are the bytes of a valid record. *)
Lemma record_bytes_encode idb gpab lenb payload :
  record_bytes abi idb gpab lenb payload ->
  exists r, valid_Student abi r /\
            encode abi r = idb ++ gpab ++ lenb ++ payload.
Proof.
  intros (Hi & Hd & Hl & Hn & Hm).
  exists {| id := int_of_repr abi idb; name := payload;
            gpa := double_of_repr abi gpab |}.
  split.
  - split; [|split]; cbn [id name gpa].
    + apply int_of_repr_range; [destruct abi_wf; lia | exact Hi].
    + pose proof (of_mem_range abi gpab) as Hr. rewrite Hd, pow_256 in Hr.
      exact Hr.
    + exact Hm.
  - rewrite encode_layout. cbn [id name gpa].
    rewrite (int_repr_of_repr abi idb Hi), <- Hn.
    unfold double_repr, double_of_repr, size_repr, size_of_repr.
    rewrite <- Hd, <- Hl, !to_of_mem. reflexivity.
Qed.

(** The first three reads, when the source holds the three fixed fields. *)
Lemma deserializeStudent_header junk ins dst idb gpab lenb tail :
  is_good ins = true ->
  unread ins = idb ++ gpab ++ lenb ++ tail ->
  length idb = int_bytes abi -> length gpab = double_bytes ->
  length lenb = size_bytes abi ->
  deserializeStudent abi junk ins dst =
    let ins3 :=
      advance (advance (advance ins (int_bytes abi)) double_bytes)
              (size_bytes abi) in
    let n := size_of_repr abi lenb in
    if max_size abi <? n then
      (Threw length_error, ins3,
       {| id := int_of_repr abi idb; name := name dst;
          gpa := double_of_repr abi gpab |})
    else if Z.max (heap_bytes abi)
                  (Z.max (Z.of_nat (length (name dst)))
                         (Z.of_nat (length tail))) <? n then
      (Threw bad_alloc, ins3,
       {| id := int_of_repr abi idb; name := name dst;
          gpa := double_of_repr abi gpab |})
    else
      (Returned, snd (istream_read ins3 (Z.to_nat n)),
       {| id := int_of_repr abi idb;
          name := store_prefix (fst (istream_read ins3 (Z.to_nat n)))
                               (string_resize (name dst) (Z.to_nat n));
          gpa := double_of_repr abi gpab |}).
Proof.
  intros Hg Hu Hi Hd Hl. unfold deserializeStudent.
  rewrite <- Hi at 1. rewrite (istream_read_exact ins idb _ Hg Hu).
  apply advance_unread in Hu. rewrite Hi in *.
  rewrite <- Hd at 1.
  rewrite (istream_read_exact _ gpab _ (advance_good _ _) Hu).
  apply advance_unread in Hu. rewrite Hd in *.
  rewrite <- Hl at 1.
  rewrite (istream_read_exact _ lenb _ (advance_good _ _) Hu).
  apply advance_unread in Hu.
  rewrite Hl in *. cbn [id name gpa].
  rewrite !store_prefix_full
    by (unfold int_repr, double_repr, size_repr; rewrite to_mem_length; lia).
  unfold resize_limit. rewrite Hu. cbv zeta.
  destruct (max_size abi <? size_of_repr abi lenb); [reflexivity|].
  destruct (_ <? size_of_repr abi lenb); [reflexivity|].
  destruct (istream_read _ _) as [b ins4]. reflexivity.
Qed.

(** All four reads, when the source holds a whole record. *)
Lemma deserializeStudent_record junk ins dst idb gpab lenb payload rest :
  is_good ins = true ->
  unread ins = idb ++ gpab ++ lenb ++ payload ++ rest ->
  record_bytes abi idb gpab lenb payload ->
  deserializeStudent abi junk ins dst =
    (Returned,
     advance (advance (advance (advance ins (int_bytes abi)) double_bytes)
                      (size_bytes abi)) (length payload),
     {| id := int_of_repr abi idb; name := payload;
        gpa := double_of_repr abi gpab |}).
Proof.
  intros Hg Hu (Hi & Hd & Hl & Hn & Hm).
  rewrite (deserializeStudent_header junk ins dst idb gpab lenb
             (payload ++ rest) Hg Hu Hi Hd Hl).
  cbv zeta. rewrite Hn.
  destruct (Z.ltb_spec (max_size abi) (Z.of_nat (length payload))); [lia|].
  destruct (Z.ltb_spec
              (Z.max (heap_bytes abi)
                 (Z.max (Z.of_nat (length (name dst)))
                        (Z.of_nat (length (payload ++ rest)))))
              (Z.of_nat (length payload))) as [Hx|_];
    [rewrite length_app in Hx; lia|].
  rewrite Nat2Z.id.
  apply advance_unread in Hu. rewrite Hi in Hu.
  apply advance_unread in Hu. rewrite Hd in Hu.
  apply advance_unread in Hu. rewrite Hl in Hu.
  rewrite (istream_read_exact _ payload rest (advance_good _ _) Hu).
  cbn [fst snd].
  rewrite store_prefix_full by (rewrite string_resize_length; lia).
  reflexivity.
Qed.

End CodecFacts.

(** ** The properties of the format *)

Section Properties.

Variable abi : ABI.
Hypothesis abi_wf : abi_ok abi.

Lemma unread_open bs : unread (istream_open bs) = bs.
Proof. reflexivity. Qed.

Lemma istream_read_fst ins n :
  is_good ins = true -> fst (istream_read ins n) = firstn n (unread ins).
Proof. intro Hg. unfold istream_read. rewrite Hg. reflexivity. Qed.

(** Reading back what [serializeStudent] wrote, wherever it lies in the
    source. *)
Lemma deserializeStudent_encode junk ins dst r rest :
  valid_Student abi r -> is_good ins = true ->
  unread ins = encode abi r ++ rest ->
  deserializeStudent abi junk ins dst =
    (Returned,
     advance (advance (advance (advance ins (int_bytes abi)) double_bytes)
                      (size_bytes abi)) (length (name r)),
     r).
Proof.
  intros (Hi & Hd & Hn) Hg Hu.
  rewrite (encode_layout abi), <- !app_assoc in Hu.
  rewrite (deserializeStudent_record abi junk ins dst _ _ _ _ _ Hg Hu
             (encode_record_bytes abi abi_wf r Hn)).
  rewrite int_of_repr_repr, double_of_repr_repr; try assumption.
  - destruct r; reflexivity.
  - destruct abi_wf; lia.
Qed.

Lemma decode_encode junk dst r :
  valid_Student abi r ->
  decode abi junk (encode abi r) dst =
    (Returned,
     advance (advance (advance (advance (istream_open (encode abi r))
                                        (int_bytes abi)) double_bytes)
                      (size_bytes abi)) (length (name r)),
     r).
Proof.
  intro Hr. unfold decode.
  apply deserializeStudent_encode with (rest := []);
    [exact Hr | reflexivity | ].
  rewrite unread_open, app_nil_r. reflexivity.
Qed.

(** C1. Round trip: reading the bytes written for a valid record [r] (its
    [id] an [int], its [gpa] any 64-bit pattern, its [name] any bytes, up to
    [max_size()] of them) into any object returns normally, leaves the
    stream good and the object equal to [r] in every field; serializing the
    object read back gives the same bytes again. *)
Theorem roundtrip_fidelity (r : Student) (junk : Z) (dst : Student) :
  valid_Student abi r ->
  (exists ins',
     decode abi junk (encode abi r) dst = (Returned, ins', r) /\
     is_good ins' = true) /\
  encode abi (snd (decode abi junk (encode abi r) dst)) = encode abi r.
Proof.
  intro Hr. rewrite (decode_encode junk dst r Hr).
  split; [|reflexivity]. eexists. split; reflexivity.
Qed.

(** C3. Length-prefix fidelity: once the three fixed fields have been read and
    the length prefix reads [n], a call that returns leaves a name of exactly
    [n] bytes; and when the source holds the [n] bytes of the name (and [n]
    is a length [resize] accepts) the call does return, and the name is those
    [n] bytes, whatever their values: no byte ends the name early. *)
Theorem length_prefix_fidelity (junk : Z) (ins : istream) (dst : Student)
    (idb gpab lenb tail : list byte) :
  is_good ins = true ->
  unread ins = idb ++ gpab ++ lenb ++ tail ->
  length idb = int_bytes abi -> length gpab = double_bytes ->
  length lenb = size_bytes abi ->
  let n := size_of_repr abi lenb in
  let '(out, _, s) := deserializeStudent abi junk ins dst in
  (out = Returned -> Z.of_nat (length (name s)) = n) /\
  (n <= max_size abi -> n <= Z.of_nat (length tail) ->
   out = Returned /\ Z.of_nat (length (name s)) = n /\
   name s = firstn (Z.to_nat n) tail).
Proof.
  intros Hg Hu Hi Hd Hl.
  rewrite (deserializeStudent_header abi junk ins dst idb gpab lenb tail
             Hg Hu Hi Hd Hl).
  cbv zeta.
  pose proof (of_mem_range abi lenb) as Hr. fold (size_of_repr abi lenb) in Hr.
  set (n := size_of_repr abi lenb) in *.
  apply advance_unread in Hu. rewrite Hi in Hu.
  apply advance_unread in Hu. rewrite Hd in Hu.
  apply advance_unread in Hu. rewrite Hl in Hu.
  assert (Hlen : Z.of_nat
                   (length (store_prefix
                      (fst (istream_read
                              (advance (advance (advance ins (int_bytes abi))
                                                double_bytes) (size_bytes abi))
                              (Z.to_nat n)))
                      (string_resize (name dst) (Z.to_nat n)))) = n).
  { rewrite istream_read_fst, Hu by apply advance_good.
    rewrite store_prefix_length; rewrite string_resize_length.
    - lia.
    - rewrite length_firstn. lia. }
  destruct (Z.ltb_spec (max_size abi) n).
  { split; [discriminate | lia]. }
  destruct (Z.ltb_spec (Z.max (heap_bytes abi)
                          (Z.max (Z.of_nat (length (name dst)))
                                 (Z.of_nat (length tail)))) n).
  { split; [discriminate | lia]. }
  cbn [name]. split; [intros _; exact Hlen|].
  intros _ Ht. split; [reflexivity|]. split; [exact Hlen|].
  rewrite istream_read_fst, Hu by apply advance_good.
  apply store_prefix_full.
  rewrite string_resize_length, length_firstn. lia.
Qed.

(** C5. Empty name: a record with an empty name is written as the three fixed
    fields and nothing else, and reading those bytes back returns normally
    with the stream good and the record, its name empty. *)
Theorem empty_name_boundary (r : Student) (junk : Z) (dst : Student) :
  valid_Student abi r -> name r = [] ->
  length (encode abi r) =
    (int_bytes abi + double_bytes + size_bytes abi)%nat /\
  exists ins' s,
    decode abi junk (encode abi r) dst = (Returned, ins', s) /\
    is_good ins' = true /\ name s = [] /\ s = r.
Proof.
  intros Hr He. split.
  - rewrite encode_length, He. unfold header_bytes. simpl. lia.
  - rewrite (decode_encode junk dst r Hr).
    eexists. exists r. repeat split. exact He.
Qed.

(** The source after a whole record has been read from it. *)
Lemma advance4_facts ins a b c d bs rest :
  unread ins = bs ++ rest -> length bs = (a + b + c + d)%nat ->
  let ins' := advance (advance (advance (advance ins a) b) c) d in
  ibuf ins' = ibuf ins /\
  ipos ins' = (ipos ins + (a + b + c + d))%nat /\
  unread ins' = rest /\ is_good ins' = true /\
  ilog ins' = ilog ins ++
    [ {| at_pos := ipos ins; wanted := a; got := a |};
      {| at_pos := (ipos ins + a)%nat; wanted := b; got := b |};
      {| at_pos := (ipos ins + a + b)%nat; wanted := c; got := c |};
      {| at_pos := (ipos ins + a + b + c)%nat; wanted := d; got := d |} ].
Proof.
  intros Hu Hl. cbv zeta. split; [reflexivity|]. split; [cbn; lia|].
  split; [|split; [reflexivity|]].
  - unfold unread in *. cbn [advance ibuf ipos].
    replace (ipos ins + a + b + c + d)%nat with (length bs + ipos ins)%nat
      by lia.
    rewrite <- skipn_skipn, Hu, skipn_app, skipn_all, Nat.sub_diag.
    reflexivity.
  - cbn [advance ilog ipos]. rewrite <- !app_assoc. reflexivity.
Qed.

(** C4. Layout and decode order: [serializeStudent] appends, in this order, the
    [sizeof(int)] bytes of [id], the eight bytes of [gpa], the
    [sizeof(size_t)] bytes of the name length and then the name bytes, that
    many and nothing after them; [deserializeStudent] performs four calls of
    [read], for these four fields in this order, each starting at the
    position where the one before stopped. *)
Theorem layout_and_read_order (os : ostream) (r : Student)
    (junk : Z) (ins : istream) (dst : Student) (rest : list byte) :
  valid_Student abi r -> os_good os = true ->
  is_good ins = true -> unread ins = encode abi r ++ rest ->
  let idb := int_repr abi (id r) in
  let gpab := double_repr abi (gpa r) in
  let lenb := size_repr abi (Z.of_nat (length (name r))) in
  obuf (serializeStudent abi os r) = obuf os ++ idb ++ gpab ++ lenb ++ name r /\
  length idb = int_bytes abi /\ length gpab = 8%nat /\
  length lenb = size_bytes abi /\
  size_of_repr abi lenb = Z.of_nat (length (name r)) /\
  let p := ipos ins in
  ilog (snd (fst (deserializeStudent abi junk ins dst))) = ilog ins ++
    [ {| at_pos := p; wanted := int_bytes abi; got := int_bytes abi |};
      {| at_pos := (p + int_bytes abi)%nat; wanted := 8; got := 8 |};
      {| at_pos := (p + int_bytes abi + 8)%nat;
         wanted := size_bytes abi; got := size_bytes abi |};
      {| at_pos := (p + int_bytes abi + 8 + size_bytes abi)%nat;
         wanted := length (name r); got := length (name r) |} ].
Proof.
  intros Hr Ho Hg Hu. cbv zeta.
  destruct (encode_record_bytes abi abi_wf r (proj2 (proj2 Hr)))
    as (Hi & Hd & Hl & Hn & _).
  rewrite (serializeStudent_good abi os r Ho).
  repeat (split; [first [reflexivity | assumption]|]).
  rewrite (deserializeStudent_encode junk ins dst r rest Hr Hg Hu).
  cbn [fst snd].
  apply (advance4_facts ins _ _ _ _ (encode abi r) rest Hu).
  rewrite encode_length. reflexivity.
Qed.

(** C6. Reading a record written by [serializeStudent], with anything after
    it in the source, moves the get position forward by the widths of the
    three fixed fields plus the name length: the bytes after the record are
    the unread part afterwards, the source is unchanged and the stream good,
    and every [read] of the call got all it asked for from inside the
    record. *)
Theorem decode_consumes_exactly (junk : Z) (ins : istream) (dst r : Student)
    (rest : list byte) :
  valid_Student abi r -> is_good ins = true ->
  unread ins = encode abi r ++ rest ->
  let '(out, ins', s) := deserializeStudent abi junk ins dst in
  let total :=
    (int_bytes abi + double_bytes + size_bytes abi + length (name r))%nat in
  out = Returned /\
  ibuf ins' = ibuf ins /\
  ipos ins' = (ipos ins + total)%nat /\
  unread ins' = rest /\
  is_good ins' = true /\
  exists evs,
    ilog ins' = ilog ins ++ evs /\
    Forall (fun e => (ipos ins <= at_pos e)%nat /\ got e = wanted e /\
                     (at_pos e + got e <= ipos ins + total)%nat) evs.
Proof.
  intros Hr Hg Hu.
  rewrite (deserializeStudent_encode junk ins dst r rest Hr Hg Hu).
  cbv zeta.
  destruct (advance4_facts ins (int_bytes abi) double_bytes (size_bytes abi)
              (length (name r)) (encode abi r) rest Hu)
    as (Hb & Hp & Hrest & Hgood & Hlog).
  { rewrite encode_length. reflexivity. }
  split; [reflexivity|]. repeat (split; [assumption|]).
  eexists. split; [exact Hlog|].
  repeat constructor; cbn [at_pos wanted got]; lia.
Qed.

(** C7. The bytes [serializeStudent] appends for a record are the same
    whatever the sink held before, and a second call for the same record
    appends the same bytes once more. *)
Theorem encode_deterministic (os1 os2 : ostream) (r : Student) :
  os_good os1 = true -> os_good os2 = true ->
  obuf (serializeStudent abi os1 r) = obuf os1 ++ encode abi r /\
  obuf (serializeStudent abi os2 r) = obuf os2 ++ encode abi r /\
  obuf (serializeStudent abi (serializeStudent abi os1 r) r) =
    obuf os1 ++ encode abi r ++ encode abi r.
Proof.
  intros H1 H2. rewrite (encode_layout abi).
  rewrite (serializeStudent_good abi os1 r H1).
  rewrite (serializeStudent_good abi os2 r H2).
  rewrite serializeStudent_good by exact H1.
  cbn [obuf]. rewrite <- !app_assoc. auto.
Qed.

(** C10. A whole record in the source overwrites every field of the
    destination: two calls on the same source give the same outcome, the same
    stream and the same object, whatever the two destinations held before
    (and whatever the storage of [nameLength] held). *)
Theorem decode_ignores_destination (junk1 junk2 : Z) (ins : istream)
    (s1 s2 : Student) (idb gpab lenb payload rest : list byte) :
  is_good ins = true ->
  unread ins = idb ++ gpab ++ lenb ++ payload ++ rest ->
  record_bytes abi idb gpab lenb payload ->
  deserializeStudent abi junk1 ins s1 = deserializeStudent abi junk2 ins s2 /\
  snd (deserializeStudent abi junk1 ins s1) =
    {| id := int_of_repr abi idb; name := payload;
       gpa := double_of_repr abi gpab |}.
Proof.
  intros Hg Hu Hb.
  rewrite !(deserializeStudent_record abi _ ins _ _ _ _ _ _ Hg Hu Hb).
  split; reflexivity.
Qed.

(** C8. [serializeStudent] leaves the record as it was, and on the stream it
    only appends: the bytes the sink held stay in front, the appended bytes
    are the record's bytes, and the state flags keep their values. *)
Theorem serialize_frame (os : ostream) (r : Student) :
  os_good os = true ->
  let '(os', r') := serializeStudent_call abi os r in
  r' = r /\
  obuf os' = obuf os ++ encode abi r /\
  firstn (length (obuf os)) (obuf os') = obuf os /\
  ofail os' = ofail os /\ obad os' = obad os /\ os_good os' = true.
Proof.
  intro Hg. unfold serializeStudent_call.
  rewrite (serializeStudent_good abi os r Hg), (encode_layout abi).
  cbn [obuf ofail obad].
  repeat split.
  - rewrite firstn_app, firstn_all, Nat.sub_diag, firstn_O. apply app_nil_r.
  - exact Hg.
Qed.

Lemma alice_valid : 11 <= max_size abi -> valid_Student abi alice.
Proof.
  intro Hm. destruct abi_wf as (Hw & _).
  split; [|split; [vm_compute; split; [discriminate|reflexivity] | exact Hm]].
  unfold int_range. cbn [alice id].
  assert (2 ^ 15 <= 2 ^ (8 * Z.of_nat (int_bytes abi) - 1))
    by (apply Z.pow_le_mono_r; lia).
  change (2 ^ 15) with 32768 in *. lia.
Qed.

Lemma Student_eqb_refl s : Student_eqb s s = true.
Proof.
  unfold Student_eqb. rewrite !Z.eqb_refl.
  destruct (list_eq_dec byte_eq_dec (name s) (name s)) as [|N];
    [reflexivity | destruct N; reflexivity].
Qed.

(** C9. The record of [main], id 101, name "Alice Smith", gpa 3.85, is
    written as the three fixed fields followed by eleven bytes; reading those
    bytes back gives that record again, and [main] reaches step 4 with the
    two objects equal. *)
Theorem alice_scenario (junk : Z) (dst : Student) :
  11 <= max_size abi ->
  length (encode abi alice) =
    (int_bytes abi + double_bytes + size_bytes abi + 11)%nat /\
  (exists ins',
     decode abi junk (encode abi alice) dst = (Returned, ins', alice) /\
     is_good ins' = true) /\
  exists m,
    main abi junk = Some m /\ students_bin m = encode abi alice /\
    deserializedStudent m = alice /\ verified m = true.
Proof.
  intro Hm. pose proof (alice_valid Hm) as Hv.
  split; [rewrite encode_length; reflexivity|]. split.
  - rewrite (decode_encode junk dst alice Hv). eexists. split; reflexivity.
  - unfold main. fold (encode abi alice).
    fold (decode abi junk (encode abi alice) Student_default).
    rewrite (decode_encode junk Student_default alice Hv).
    eexists. split; [reflexivity|]. cbn [students_bin deserializedStudent verified].
    split; [reflexivity|]. split; [reflexivity|]. apply Student_eqb_refl.
Qed.

(** *** Input that ends early *)

Lemma read_short_spent ins n :
  is_good ins = true -> (length (unread ins) < n)%nat ->
  exists ins', istream_read ins n = (unread ins, ins') /\ spent ins'.
Proof.
  intros Hg Hn.
  destruct (istream_read_short ins n Hg Hn) as (ins' & E & Hb & Hp & Hf & He & _).
  exists ins'. split; [exact E|]. repeat split; try assumption.
  unfold unread in *. rewrite Hb, Hp. apply skipn_all2.
  rewrite length_skipn. lia.
Qed.

Lemma read_spent ins n :
  spent ins -> exists ins', istream_read ins n = ([], ins') /\ spent ins'.
Proof.
  intros (Hf & He & Hu).
  destruct (istream_read_failed ins n Hf) as (ins' & E & Hb & Hp & Hf' & He' & _).
  exists ins'. split; [exact E|]. repeat split; try congruence.
  unfold unread in *. rewrite Hb, Hp. exact Hu.
Qed.

(** Rewrites the next [read] of the goal, on a spent stream. *)
Ltac read_on_spent S :=
  match goal with
  | |- context [istream_read ?i ?n] =>
      let i' := fresh "ins" in let E := fresh "E" in let S' := fresh "S" in
      destruct (read_spent i n S) as (i' & E & S'); rewrite E; clear E;
      cbv beta iota; try read_on_spent S'
  | _ => idtac
  end.

(** The source ends inside [id]. *)
Lemma cut_in_id junk ins dst :
  is_good ins = true -> (length (unread ins) < int_bytes abi)%nat ->
  let '(_, ins', _) := deserializeStudent abi junk ins dst in spent ins'.
Proof.
  intros Hg Hc. unfold deserializeStudent.
  destruct (read_short_spent ins _ Hg Hc) as (ins1 & E1 & S1). rewrite E1.
  read_on_spent S1.
  repeat match goal with |- context [if ?c then _ else _] => destruct c end;
    try read_on_spent S1; assumption.
Qed.

(** The source ends inside [gpa]. *)
Lemma cut_in_gpa junk ins dst idb t :
  is_good ins = true -> unread ins = idb ++ t ->
  length idb = int_bytes abi -> (length t < double_bytes)%nat ->
  let '(_, ins', s) := deserializeStudent abi junk ins dst in
  spent ins' /\ id s = int_of_repr abi idb.
Proof.
  intros Hg Hu Hi Hc. unfold deserializeStudent.
  destruct (istream_read_n ins _ idb t Hg Hu Hi) as (E1 & U1). rewrite E1.
  rewrite store_prefix_full
    by (unfold int_repr; rewrite to_mem_length; lia).
  destruct (read_short_spent (advance ins (int_bytes abi)) double_bytes
              (advance_good _ _)) as (ins2 & E2 & S2); [rewrite U1; exact Hc|].
  rewrite E2. read_on_spent S2.
  repeat match goal with |- context [if ?c then _ else _] => destruct c end;
    try read_on_spent S2; (split; [assumption | reflexivity]).
Qed.

(** The source ends inside the length prefix. *)
Lemma cut_in_length junk ins dst idb gpab t :
  is_good ins = true -> unread ins = idb ++ gpab ++ t ->
  length idb = int_bytes abi -> length gpab = double_bytes ->
  (length t < size_bytes abi)%nat ->
  let '(_, ins', s) := deserializeStudent abi junk ins dst in
  spent ins' /\ id s = int_of_repr abi idb /\ gpa s = double_of_repr abi gpab.
Proof.
  intros Hg Hu Hi Hd Hc. unfold deserializeStudent.
  destruct (istream_read_n ins _ idb _ Hg Hu Hi) as (E1 & U1). rewrite E1.
  destruct (istream_read_n _ _ gpab t (advance_good _ _) U1 Hd) as (E2 & U2).
  rewrite E2.
  rewrite !store_prefix_full
    by (unfold int_repr, double_repr; rewrite to_mem_length; lia).
  match goal with |- context [istream_read ?i (size_bytes abi)] =>
    destruct (read_short_spent i (size_bytes abi) (advance_good _ _))
      as (ins3 & E3 & S3); [rewrite U2; exact Hc|]
  end.
  rewrite E3. cbn [id name gpa].
  repeat match goal with |- context [if ?c then _ else _] => destruct c end;
    try read_on_spent S3; (split; [assumption | split; reflexivity]).
Qed.

(** The source ends inside the name: the call returns when [resize] has the
    memory for the announced length, and [resize] throws otherwise. *)
Lemma cut_in_name junk ins dst idb gpab lenb t :
  is_good ins = true -> unread ins = idb ++ gpab ++ lenb ++ t ->
  length idb = int_bytes abi -> length gpab = double_bytes ->
  length lenb = size_bytes abi ->
  size_of_repr abi lenb <= max_size abi ->
  Z.of_nat (length t) < size_of_repr abi lenb ->
  let n := size_of_repr abi lenb in
  let limit := Z.max (heap_bytes abi) (Z.of_nat (length (name dst))) in
  let '(out, ins', s) := deserializeStudent abi junk ins dst in
  (n <= limit ->
   out = Returned /\ spent ins' /\
   s = {| id := int_of_repr abi idb;
          name := t ++ skipn (length t)
                    (string_resize (name dst) (Z.to_nat n));
          gpa := double_of_repr abi gpab |}) /\
  (limit < n ->
   out = Threw bad_alloc /\ is_good ins' = true /\ unread ins' = t /\
   s = {| id := int_of_repr abi idb; name := name dst;
          gpa := double_of_repr abi gpab |}).
Proof.
  intros Hg Hu Hi Hd Hl Hm Hc.
  rewrite (deserializeStudent_header abi junk ins dst idb gpab lenb t
             Hg Hu Hi Hd Hl).
  cbv zeta.
  destruct (Z.ltb_spec (max_size abi) (size_of_repr abi lenb)); [lia|].
  apply advance_unread in Hu. rewrite Hi in Hu.
  apply advance_unread in Hu. rewrite Hd in Hu.
  apply advance_unread in Hu. rewrite Hl in Hu.
  destruct (Z.ltb_spec (Z.max (heap_bytes abi)
                          (Z.max (Z.of_nat (length (name dst)))
                                 (Z.of_nat (length t))))
                       (size_of_repr abi lenb)).
  - split; [lia|]. intros _. repeat split. exact Hu.
  - split; [|lia]. intros _.
    match goal with |- context [istream_read ?i ?n] =>
      destruct (read_short_spent i n (advance_good _ _))
        as (ins4 & E4 & S4); [rewrite Hu; lia|]
    end.
    rewrite E4, Hu. cbn [fst snd].
    split; [reflexivity | split; [exact S4 | reflexivity]].
Qed.

Lemma firstn_app_ge {A} (k : nat) (a b : list A) :
  (length a <= k)%nat -> firstn k (a ++ b) = a ++ firstn (k - length a) b.
Proof. intro H. rewrite firstn_app, firstn_all2 by exact H. reflexivity. Qed.

(** C2, as the code has it. The function has no check for input that stops
    before the end of a record, and the destination is updated in place as
    far as the bytes went: [id], then [gpa], hold the values written once all
    their bytes were there.  When the input stops inside one of the three
    fixed fields, the call leaves the stream with [failbit] and [eofbit] set
    and nothing left to read.  When it stops inside the name, either the call
    returns normally, with [failbit] and [eofbit] set, nothing left to read,
    and a name of the announced length made of the bytes that came followed
    by what [resize] had left at the remaining positions; or [resize] has no
    memory for the announced length and throws [std::bad_alloc], the stream
    still good and the name as it was.  [resize] has the memory when the
    announced length is within what the allocator supplies or within the
    length the name had. *)
Theorem truncated_input_behaviour (r : Student) (k : nat) (junk : Z)
    (ins : istream) (dst : Student) :
  valid_Student abi r -> is_good ins = true ->
  (k < length (encode abi r))%nat ->
  unread ins = firstn k (encode abi r) ->
  let n := length (name r) in
  let limit := Z.max (heap_bytes abi) (Z.of_nat (length (name dst))) in
  let '(out, ins', s) := deserializeStudent abi junk ins dst in
  ((k < header_bytes abi)%nat ->
   ifail ins' = true /\ ieof ins' = true /\ unread ins' = []) /\
  ((int_bytes abi <= k)%nat -> id s = id r) /\
  ((int_bytes abi + double_bytes <= k)%nat -> gpa s = gpa r) /\
  ((header_bytes abi <= k)%nat ->
   (Z.of_nat n <= limit ->
    out = Returned /\
    ifail ins' = true /\ ieof ins' = true /\ unread ins' = [] /\
    name s = firstn (k - header_bytes abi) (name r) ++
             skipn (k - header_bytes abi) (string_resize (name dst) n)) /\
   (limit < Z.of_nat n ->
    out = Threw bad_alloc /\ is_good ins' = true /\ name s = name dst)).
Proof.
  intros (Hri & Hrd & Hrn) Hg Hk Hu. cbv zeta.
  rewrite encode_length in Hk. rewrite (encode_layout abi) in Hu.
  destruct (encode_record_bytes abi abi_wf r Hrn) as (Hi & Hd & Hl & Hn & Hm).
  assert (Hw : (1 <= int_bytes abi)%nat) by (destruct abi_wf; lia).
  pose proof (int_of_repr_repr abi (id r) Hw Hri) as Rid.
  pose proof (double_of_repr_repr abi (gpa r) Hrd) as Rgpa.
  unfold header_bytes in *.
  set (idb := int_repr abi (id r)) in *.
  set (gpab := double_repr abi (gpa r)) in *.
  set (lenb := size_repr abi (Z.of_nat (length (name r)))) in *.
  destruct (le_lt_dec (int_bytes abi) k) as [K1|K1].
  2:{ assert (Hc : (length (unread ins) < int_bytes abi)%nat)
        by (rewrite Hu, length_firstn; lia).
      pose proof (cut_in_id junk ins dst Hg Hc) as H.
      destruct (deserializeStudent abi junk ins dst) as [[out ins'] s].
      split; [intros _; exact H|]. repeat split; intros; lia. }
  rewrite firstn_app_ge, Hi in Hu by lia.
  destruct (le_lt_dec (int_bytes abi + double_bytes) k) as [K2|K2].
  2:{ pose proof (cut_in_gpa junk ins dst idb _ Hg Hu Hi) as H.
      rewrite length_firstn in H. specialize (H ltac:(lia)).
      destruct (deserializeStudent abi junk ins dst) as [[out ins'] s].
      destruct H as (Hs & Hid). split; [intros _; exact Hs|].
      split; [intros _; congruence|]. repeat split; intros; lia. }
  rewrite firstn_app_ge, Hd in Hu by lia.
  destruct (le_lt_dec (int_bytes abi + double_bytes + size_bytes abi) k)
    as [K3|K3].
  2:{ pose proof (cut_in_length junk ins dst idb gpab _ Hg Hu Hi Hd) as H.
      rewrite length_firstn in H. specialize (H ltac:(lia)).
      destruct (deserializeStudent abi junk ins dst) as [[out ins'] s].
      destruct H as (Hs & Hid & Hgpa). split; [intros _; exact Hs|].
      split; [intros _; congruence|]. split; [intros _; congruence|].
      intros; lia. }
  rewrite firstn_app_ge, Hl in Hu by lia.
  replace (k - int_bytes abi - double_bytes - size_bytes abi)%nat
    with (k - (int_bytes abi + double_bytes + size_bytes abi))%nat in Hu by lia.
  set (m := (k - (int_bytes abi + double_bytes + size_bytes abi))%nat) in *.
  assert (Hlen : length (firstn m (name r)) = m)
    by (rewrite length_firstn; lia).
  pose proof (cut_in_name junk ins dst idb gpab lenb _ Hg Hu Hi Hd Hl) as H.
  cbv zeta in H. rewrite Hn, Hlen, Nat2Z.id in H.
  specialize (H Hm ltac:(lia)).
  destruct (deserializeStudent abi junk ins dst) as [[out ins'] s].
  destruct H as (HR & HT).
  split; [intros; lia|].
  split.
  { intros _. destruct (Z_le_gt_dec (Z.of_nat (length (name r)))
                 (Z.max (heap_bytes abi) (Z.of_nat (length (name dst)))))
      as [L|L].
    - destruct (HR L) as (_ & _ & Hs). subst s. exact Rid.
    - destruct (HT ltac:(lia)) as (_ & _ & _ & Hs). subst s. exact Rid. }
  split.
  { intros _. destruct (Z_le_gt_dec (Z.of_nat (length (name r)))
                 (Z.max (heap_bytes abi) (Z.of_nat (length (name dst)))))
      as [L|L].
    - destruct (HR L) as (_ & _ & Hs). subst s. exact Rgpa.
    - destruct (HT ltac:(lia)) as (_ & _ & _ & Hs). subst s. exact Rgpa. }
  intros _. split.
  - intro L. destruct (HR L) as (Ho & (Hf & He & Hr) & Hs). subst s.
    cbn [name]. auto.
  - intro L. destruct (HT L) as (Ho & Hgood & _ & Hs). subst s.
    cbn [name]. auto.
Qed.

End Properties.

(** ** Further properties of the two functions *)

Section MoreProperties.

Variable abi : ABI.
Hypothesis abi_wf : abi_ok abi.

(** The record that four well-formed pieces decode to is valid, and is
    written back as these pieces. *)
Lemma record_bytes_decoded idb gpab lenb payload :
  record_bytes abi idb gpab lenb payload ->
  let r := {| id := int_of_repr abi idb; name := payload;
              gpa := double_of_repr abi gpab |} in
  valid_Student abi r /\ encode abi r = idb ++ gpab ++ lenb ++ payload.
Proof.
  intros (Hi & Hd & Hl & Hn & Hm). cbv zeta. split.
  - split; [|split]; cbn [id name gpa].
    + apply int_of_repr_range; [destruct abi_wf; lia | exact Hi].
    + pose proof (of_mem_range abi gpab) as Hr. rewrite Hd, pow_256 in Hr.
      exact Hr.
    + exact Hm.
  - rewrite encode_layout. cbn [id name gpa].
    rewrite (int_repr_of_repr abi idb Hi), <- Hn.
    unfold double_repr, double_of_repr, size_repr, size_of_repr.
    rewrite <- Hd, <- Hl, !to_of_mem. reflexivity.
Qed.

(** X1. The format is uniquely decodable: if the bytes of two valid records,
    each followed by anything, are the same byte sequence, the records are
    equal and so is what follows them. *)
Theorem encode_prefix_free (r1 r2 : Student) (t1 t2 : list byte) :
  valid_Student abi r1 -> valid_Student abi r2 ->
  encode abi r1 ++ t1 = encode abi r2 ++ t2 ->
  r1 = r2 /\ t1 = t2.
Proof.
  intros H1 H2 E.
  pose proof (deserializeStudent_encode abi abi_wf 0
                (istream_open (encode abi r1 ++ t1)) Student_default r1 t1
                H1 eq_refl eq_refl) as D1.
  pose proof (deserializeStudent_encode abi abi_wf 0
                (istream_open (encode abi r1 ++ t1)) Student_default r2 t2
                H2 eq_refl E) as D2.
  rewrite D1 in D2. injection D2 as _ Hr. subst r2.
  split; [reflexivity|]. apply app_inv_head in E. exact E.
Qed.

(** X2. Reading then writing: when the source holds a whole well-formed
    record, the record read is valid and [serializeStudent] writes it back as
    exactly the bytes that were consumed. *)
Theorem decode_then_encode (junk : Z) (ins : istream) (dst : Student)
    (idb gpab lenb payload rest : list byte) :
  is_good ins = true ->
  unread ins = idb ++ gpab ++ lenb ++ payload ++ rest ->
  record_bytes abi idb gpab lenb payload ->
  let '(out, _, s) := deserializeStudent abi junk ins dst in
  out = Returned /\ valid_Student abi s /\
  encode abi s = idb ++ gpab ++ lenb ++ payload.
Proof.
  intros Hg Hu Hb.
  rewrite (deserializeStudent_record abi junk ins dst _ _ _ _ _ Hg Hu Hb).
  split; [reflexivity|]. apply (record_bytes_decoded _ _ _ _ Hb).
Qed.

(** X3. Records follow one another without a separator: after two calls of
    [serializeStudent] on a good sink, two calls of [deserializeStudent] on
    the bytes appended, the second into the object the first one filled,
    give the first record and then the second, and leave the stream good at
    the byte after the second record. *)
Theorem two_records_in_sequence (os : ostream) (r1 r2 : Student)
    (j1 j2 : Z) (ins : istream) (dst : Student) (rest : list byte) :
  valid_Student abi r1 -> valid_Student abi r2 ->
  os_good os = true -> is_good ins = true ->
  unread ins =
    skipn (length (obuf os))
          (obuf (serializeStudent abi (serializeStudent abi os r1) r2))
    ++ rest ->
  let '(o1, ins1, s1) := deserializeStudent abi j1 ins dst in
  let '(o2, ins2, s2) := deserializeStudent abi j2 ins1 s1 in
  o1 = Returned /\ s1 = r1 /\ o2 = Returned /\ s2 = r2 /\
  is_good ins2 = true /\ unread ins2 = rest /\
  ipos ins2 = (ipos ins + length (encode abi r1) + length (encode abi r2))%nat.
Proof.
  intros H1 H2 Ho Hg Hu.
  rewrite (serializeStudent_good abi os r1 Ho) in Hu.
  rewrite serializeStudent_good in Hu by exact Ho.
  cbn [obuf] in Hu. rewrite <- !(encode_layout abi) in Hu.
  rewrite <- !app_assoc in Hu.
  rewrite skipn_app, skipn_all, Nat.sub_diag in Hu. cbn [skipn app] in Hu.
  rewrite <- app_assoc in Hu.
  rewrite (deserializeStudent_encode abi abi_wf j1 ins dst r1 _ H1 Hg Hu).
  destruct (advance4_facts ins (int_bytes abi) double_bytes (size_bytes abi)
              (length (name r1)) (encode abi r1) _ Hu)
    as (_ & Hp1 & Hu1 & Hg1 & _).
  { rewrite encode_length. reflexivity. }
  rewrite (deserializeStudent_encode abi abi_wf j2 _ r1 r2 rest H2 Hg1 Hu1).
  destruct (advance4_facts _ (int_bytes abi) double_bytes (size_bytes abi)
              (length (name r2)) (encode abi r2) rest Hu1)
    as (_ & Hp2 & Hu2 & Hg2 & _).
  { rewrite encode_length. reflexivity. }
  repeat (split; [first [reflexivity | assumption]|]).
  rewrite Hp2, Hp1, !encode_length. unfold header_bytes. lia.
Qed.

(** X4. A length prefix above [max_size()]: [resize] throws
    [std::length_error] out of the call.  By then [id] and [gpa] have been
    overwritten with the values read; the name is untouched, the stream is
    good and stands right after the length prefix. *)
Theorem oversized_length_throws (junk : Z) (ins : istream) (dst : Student)
    (idb gpab lenb tail : list byte) :
  is_good ins = true ->
  unread ins = idb ++ gpab ++ lenb ++ tail ->
  length idb = int_bytes abi -> length gpab = double_bytes ->
  length lenb = size_bytes abi ->
  max_size abi < size_of_repr abi lenb ->
  let '(out, ins', s) := deserializeStudent abi junk ins dst in
  out = Threw length_error /\
  s = {| id := int_of_repr abi idb; name := name dst;
         gpa := double_of_repr abi gpab |} /\
  is_good ins' = true /\ unread ins' = tail /\
  ipos ins' = (ipos ins + header_bytes abi)%nat.
Proof.
  intros Hg Hu Hi Hd Hl Hm.
  rewrite (deserializeStudent_header abi junk ins dst idb gpab lenb tail
             Hg Hu Hi Hd Hl).
  cbv zeta.
  destruct (Z.ltb_spec (max_size abi) (size_of_repr abi lenb)); [|lia].
  split; [reflexivity|]. split; [reflexivity|]. split; [reflexivity|].
  split.
  - apply advance_unread in Hu. rewrite Hi in Hu.
    apply advance_unread in Hu. rewrite Hd in Hu.
    apply advance_unread in Hu. rewrite Hl in Hu. exact Hu.
  - cbn [advance ipos]. unfold header_bytes. lia.
Qed.

(** X5. [serializeStudent] on a sink that is not good writes nothing: the
    bytes the sink holds are the same afterwards, [eofbit] and [badbit] are
    as they were, [failbit] stays set when it was set and stays clear when
    only [eofbit] was set, and the sink is still not good. *)
Theorem serialize_sink_not_good (os : ostream) (r : Student) :
  os_good os = false ->
  let os' := serializeStudent abi os r in
  obuf os' = obuf os /\ oeof os' = oeof os /\ obad os' = obad os /\
  (ofail os = true -> ofail os' = true) /\
  (ofail os = false -> obad os = false -> ofail os' = false) /\
  os_good os' = false.
Proof.
  intro Hg. cbv zeta.
  assert (W : forall o bs, os_good o = false ->
                ostream_write o bs =
                  {| obuf := obuf o; ofail := ofail o || obad o;
                     oeof := oeof o; obad := obad o |}).
  { intros o bs H. unfold ostream_write. rewrite H. reflexivity. }
  unfold serializeStudent.
  rewrite !W by (rewrite ?ostream_write_keeps_good; exact Hg).
  cbn [obuf ofail oeof obad]. unfold os_good in *. cbn [ofail oeof obad].
  destruct (ofail os), (oeof os), (obad os); try discriminate Hg;
    repeat split; intros; try reflexivity; try discriminate.
Qed.

(** *** What the call does to the stream, on any input *)

Lemma read_later ins n :
  later_state ins (snd (istream_read ins n)) /\
  exists e, ilog (snd (istream_read ins n)) = ilog ins ++ [e].
Proof.
  unfold istream_read, later_state. destruct (is_good ins) eqn:Hg;
    cbn [snd ibuf ipos ifail ieof ibad ilog].
  - split; [|eexists; reflexivity].
    split; [reflexivity|]. split; [lia|]. split.
    { rewrite length_firstn, length_skipn. lia. }
    split; [intro H; rewrite H; reflexivity|].
    split; [intro H; rewrite H; reflexivity|].
    split; [reflexivity | discriminate].
  - split; [|eexists; reflexivity].
    repeat split; auto; lia.
Qed.

Lemma later_state_not_good a b :
  later_state a b -> is_good a = false -> is_good b = false.
Proof.
  intros (_ & _ & _ & Hf & He & Hb & _) H. unfold is_good in *. rewrite Hb.
  destruct (ifail a); [rewrite (Hf eq_refl); reflexivity|].
  destruct (ieof a); [rewrite (He eq_refl); destruct (ifail b); reflexivity|].
  destruct (ibad a); [destruct (ifail b), (ieof b); reflexivity|].
  discriminate H.
Qed.

Lemma later_state_trans a b c :
  later_state a b -> later_state b c -> later_state a c.
Proof.
  intros Hab Hbc.
  pose proof (later_state_not_good a b Hab) as Hn.
  destruct Hab as (B1 & P1 & M1 & F1 & E1 & D1 & N1).
  destruct Hbc as (B2 & P2 & M2 & F2 & E2 & D2 & N2).
  unfold later_state. rewrite B1 in *.
  repeat split; try congruence; try lia; auto.
  intro H. rewrite N2, N1; auto.
Qed.

(** X6. Whatever the stream holds and whatever its state, a call of
    [deserializeStudent] calls [read] four times when it returns and three
    times when [resize] throws; it does not change the source, does not move
    the get position back nor past the end of the source, does not clear an
    error flag that was set, and leaves the position where it was when the
    stream was not good on entry. *)
Theorem deserialize_stream_invariant (junk : Z) (ins : istream)
    (dst : Student) :
  let '(out, ins', _) := deserializeStudent abi junk ins dst in
  (exists evs,
     ilog ins' = ilog ins ++ evs /\
     length evs = match out with Returned => 4%nat | Threw _ => 3%nat end) /\
  ibuf ins' = ibuf ins /\
  (ipos ins <= ipos ins')%nat /\
  (ipos ins' <= Nat.max (ipos ins) (length (ibuf ins)))%nat /\
  (ifail ins = true -> ifail ins' = true) /\
  (ieof ins = true -> ieof ins' = true) /\
  ibad ins' = ibad ins /\
  (is_good ins = false -> ipos ins' = ipos ins).
Proof.
  unfold deserializeStudent.
  destruct (read_later ins (int_bytes abi)) as (L1 & e1 & G1).
  destruct (istream_read ins (int_bytes abi)) as [b1 i1]. cbn [snd] in L1, G1.
  destruct (read_later i1 double_bytes) as (L2 & e2 & G2).
  destruct (istream_read i1 double_bytes) as [b2 i2]. cbn [snd] in L2, G2.
  destruct (read_later i2 (size_bytes abi)) as (L3 & e3 & G3).
  destruct (istream_read i2 (size_bytes abi)) as [b3 i3]. cbn [snd] in L3, G3.
  pose proof (later_state_trans _ _ _ (later_state_trans _ _ _ L1 L2) L3) as L.
  cbv zeta.
  assert (T : (exists evs, ilog i3 = ilog ins ++ evs /\ length evs = 3%nat) /\
              later_state ins i3).
  { split; [|exact L]. exists [e1; e2; e3]. split; [|reflexivity].
    rewrite G3, G2, G1, <- !app_assoc. reflexivity. }
  match goal with |- context [if ?c then _ else _] => destruct c end;
    [exact T|].
  match goal with |- context [if ?c then _ else _] => destruct c end;
    [exact T|].
  - match goal with |- context [istream_read i3 ?n] =>
      destruct (read_later i3 n) as (L4 & e4 & G4);
      destruct (istream_read i3 n) as [b4 i4]
    end.
    cbn [snd] in L4, G4.
    split; [|exact (later_state_trans _ _ _ L L4)].
    exists [e1; e2; e3; e4]. split; [|reflexivity].
    rewrite G4, G3, G2, G1, <- !app_assoc. reflexivity.
Qed.

(** X7. Testing the stream after the call detects every short input: when the
    stream was good before the call, the call returned and the stream is
    still good, the source held a whole well-formed record at the get
    position, the object holds exactly that record and the stream stands
    right after it. *)
Theorem good_stream_means_complete (junk : Z) (ins : istream) (dst : Student)
    (ins' : istream) (s : Student) :
  is_good ins = true ->
  deserializeStudent abi junk ins dst = (Returned, ins', s) ->
  is_good ins' = true ->
  exists idb gpab lenb payload rest,
    unread ins = idb ++ gpab ++ lenb ++ payload ++ rest /\
    record_bytes abi idb gpab lenb payload /\
    s = {| id := int_of_repr abi idb; name := payload;
           gpa := double_of_repr abi gpab |} /\
    unread ins' = rest.
Proof.
  intros Hg E Hg'.
  destruct (is_good_flags ins' Hg') as (Hf' & _).
  destruct (le_lt_dec (int_bytes abi) (length (unread ins))) as [K1|K1].
  2:{ pose proof (cut_in_id abi junk ins dst Hg K1) as H. rewrite E in H.
      destruct H as (Hf & _). congruence. }
  pose proof (eq_sym (firstn_skipn (int_bytes abi) (unread ins))) as Hu.
  set (idb := firstn (int_bytes abi) (unread ins)) in *.
  assert (Hi : length idb = int_bytes abi)
    by (unfold idb; rewrite length_firstn; lia).
  set (t1 := skipn (int_bytes abi) (unread ins)) in *.
  destruct (le_lt_dec double_bytes (length t1)) as [K2|K2].
  2:{ pose proof (cut_in_gpa abi junk ins dst idb t1 Hg Hu Hi K2) as H.
      rewrite E in H. destruct H as ((Hf & _) & _). congruence. }
  rewrite <- (firstn_skipn double_bytes t1) in Hu.
  set (gpab := firstn double_bytes t1) in *.
  assert (Hd : length gpab = double_bytes)
    by (unfold gpab; rewrite length_firstn; lia).
  set (t2 := skipn double_bytes t1) in *.
  destruct (le_lt_dec (size_bytes abi) (length t2)) as [K3|K3].
  2:{ pose proof (cut_in_length abi junk ins dst idb gpab t2 Hg Hu Hi Hd K3)
        as H.
      rewrite E in H. destruct H as ((Hf & _) & _). congruence. }
  rewrite <- (firstn_skipn (size_bytes abi) t2) in Hu.
  set (lenb := firstn (size_bytes abi) t2) in *.
  assert (Hl : length lenb = size_bytes abi)
    by (unfold lenb; rewrite length_firstn; lia).
  set (t3 := skipn (size_bytes abi) t2) in *.
  rewrite (deserializeStudent_header abi junk ins dst idb gpab lenb t3
             Hg Hu Hi Hd Hl) in E.
  cbv zeta in E.
  pose proof (of_mem_range abi lenb) as Hr. fold (size_of_repr abi lenb) in Hr.
  set (n := size_of_repr abi lenb) in *.
  destruct (Z.ltb_spec (max_size abi) n) as [|Hm]; [discriminate E|].
  match type of E with context [if ?c then _ else _] =>
    destruct c; [discriminate E|]
  end.
  pose proof Hu as Hu3.
  apply advance_unread in Hu3. rewrite Hi in Hu3.
  apply advance_unread in Hu3. rewrite Hd in Hu3.
  apply advance_unread in Hu3. rewrite Hl in Hu3.
  set (ins3 := advance (advance (advance ins (int_bytes abi)) double_bytes)
                       (size_bytes abi)) in *.
  destruct (le_lt_dec (Z.to_nat n) (length t3)) as [K4|K4].
  2:{ destruct (read_short_spent ins3 (Z.to_nat n) (advance_good _ _))
        as (ins4 & E4 & (Hf & _)); [rewrite Hu3; exact K4|].
      rewrite E4 in E. cbn [fst snd] in E. injection E as E1 _.
      congruence. }
  rewrite <- (firstn_skipn (Z.to_nat n) t3) in Hu3, Hu.
  set (payload := firstn (Z.to_nat n) t3) in *.
  assert (Hp : length payload = Z.to_nat n)
    by (unfold payload; rewrite length_firstn; lia).
  destruct (istream_read_n ins3 (Z.to_nat n) payload _
              (advance_good _ _) Hu3 Hp) as (E4 & U4).
  rewrite E4 in E. cbn [fst snd] in E. injection E as E1 E2.
  exists idb, gpab, lenb, payload, (skipn (Z.to_nat n) t3).
  split; [exact Hu|]. split.
  - unfold record_bytes. repeat split; try assumption; rewrite Hp; fold n; lia.
  - split; [|rewrite <- E1; exact U4].
    rewrite <- E2.
    rewrite store_prefix_full by (rewrite string_resize_length; lia).
    reflexivity.
Qed.

(** *** Input that gives no byte, or only part of a field *)

(** [id] and [gpa] after the call, in terms of what the first two reads
    returned. *)
Lemma result_fields junk ins dst :
  let r1 := istream_read ins (int_bytes abi) in
  let r2 := istream_read (snd r1) double_bytes in
  let '(_, _, s) := deserializeStudent abi junk ins dst in
  id s = int_of_repr abi (store_prefix (fst r1) (int_repr abi (id dst))) /\
  gpa s =
    double_of_repr abi (store_prefix (fst r2) (double_repr abi (gpa dst))).
Proof.
  cbv zeta. unfold deserializeStudent.
  destruct (istream_read ins (int_bytes abi)) as [b1 i1]. cbn [fst snd].
  destruct (istream_read i1 double_bytes) as [b2 i2]. cbn [fst snd].
  destruct (istream_read i2 (size_bytes abi)) as [b3 i3].
  repeat match goal with |- context [if ?c then _ else _] => destruct c end;
    try (split; reflexivity).
  destruct (istream_read i3 _) as [b4 i4]. split; reflexivity.
Qed.

Lemma istream_read_not_good ins n :
  is_good ins = false ->
  istream_read ins n =
    ([], {| ibuf := ibuf ins; ipos := ipos ins; ifail := true;
            ieof := ieof ins; ibad := ibad ins; igcount := 0;
            ilog := ilog ins ++
                    [{| at_pos := ipos ins; wanted := n; got := 0 |}] |}).
Proof. intro H. unfold istream_read. rewrite H. reflexivity. Qed.

(** A first read that gets nothing: the stream was not good, or nothing was
    left in the source. *)
Lemma first_read_nothing ins n :
  is_good ins = false \/ unread ins = [] -> (1 <= n)%nat ->
  exists ins1,
    istream_read ins n = ([], ins1) /\ ibuf ins1 = ibuf ins /\
    ipos ins1 = ipos ins /\ ifail ins1 = true.
Proof.
  intros H Hn. destruct (is_good ins) eqn:Hg.
  - destruct H as [H|H]; [discriminate H|].
    destruct (istream_read_short ins n Hg) as (i & E & Hb & Hp & Hf & _).
    { rewrite H. cbn. lia. }
    rewrite H in E, Hp. cbn in Hp. exists i.
    repeat split; try assumption. lia.
  - rewrite (istream_read_not_good ins n Hg). eexists.
    repeat split.
Qed.

(** The whole call when the first read gets nothing. *)
Lemma deserializeStudent_no_input junk ins dst :
  is_good ins = false \/ unread ins = [] ->
  exists ins3 ins4,
    ibuf ins3 = ibuf ins /\ ipos ins3 = ipos ins /\ ifail ins3 = true /\
    ibuf ins4 = ibuf ins /\ ipos ins4 = ipos ins /\ ifail ins4 = true /\
    deserializeStudent abi junk ins dst =
      let n := size_of_repr abi (size_repr abi junk) in
      let idv := int_of_repr abi (int_repr abi (id dst)) in
      let gpav := double_of_repr abi (double_repr abi (gpa dst)) in
      if max_size abi <? n then
        (Threw length_error, ins3,
         {| id := idv; name := name dst; gpa := gpav |})
      else if Z.max (heap_bytes abi)
                    (Z.max (Z.of_nat (length (name dst)))
                           (Z.of_nat (length (unread ins)))) <? n then
        (Threw bad_alloc, ins3,
         {| id := idv; name := name dst; gpa := gpav |})
      else
        (Returned, ins4,
         {| id := idv; name := string_resize (name dst) (Z.to_nat n);
            gpa := gpav |}).
Proof.
  intro H. unfold deserializeStudent.
  destruct (first_read_nothing ins (int_bytes abi) H)
    as (i1 & E1 & B1 & P1 & F1); [destruct abi_wf; lia|].
  rewrite E1.
  destruct (istream_read_failed i1 double_bytes F1)
    as (i2 & E2 & B2 & P2 & F2 & _).
  rewrite E2.
  destruct (istream_read_failed i2 (size_bytes abi) F2)
    as (i3 & E3 & B3 & P3 & F3 & _).
  rewrite E3.
  change (store_prefix [] ?x) with x.
  match goal with |- context [istream_read i3 ?n] =>
    destruct (istream_read_failed i3 n F3) as (i4 & E4 & B4 & P4 & F4 & _);
    rewrite E4
  end.
  exists i3, i4. cbn [id name gpa].
  change (store_prefix [] ?x) with x. cbv zeta.
  assert (U : unread i3 = unread ins)
    by (unfold unread; congruence).
  unfold resize_limit. rewrite U.
  repeat split; congruence.
Qed.

(** X8. No input: when the stream is not good on entry, or nothing is left in
    the source, the call extracts nothing, leaves the get position where it
    was and [failbit] set, and does not change [id] and [gpa]; the name is
    the old name cut or padded with zero bytes to the length it has
    afterwards, and is the old name when [resize] throws. *)
Theorem no_input_keeps_fields (junk : Z) (ins : istream) (dst : Student) :
  is_good ins = false \/ unread ins = [] ->
  int_range abi (id dst) -> double_range (gpa dst) ->
  let '(out, ins', s) := deserializeStudent abi junk ins dst in
  ibuf ins' = ibuf ins /\ ipos ins' = ipos ins /\ ifail ins' = true /\
  id s = id dst /\ gpa s = gpa dst /\
  name s = string_resize (name dst) (length (name s)) /\
  (out <> Returned -> name s = name dst).
Proof.
  intros H Hi Hd.
  destruct (deserializeStudent_no_input junk ins dst H)
    as (i3 & i4 & B3 & P3 & F3 & B4 & P4 & F4 & E).
  rewrite E. cbv zeta.
  rewrite int_of_repr_repr, double_of_repr_repr;
    [| assumption | destruct abi_wf; lia | assumption].
  assert (K : name dst = string_resize (name dst) (length (name dst))).
  { unfold string_resize. rewrite firstn_all, Nat.sub_diag. cbn.
    symmetry. apply app_nil_r. }
  destruct (max_size abi <? _); [|destruct (_ <? _)].
  - cbn [id name gpa]. do 5 (split; [assumption || reflexivity|]).
    split; [exact K | reflexivity].
  - cbn [id name gpa]. do 5 (split; [assumption || reflexivity|]).
    split; [exact K | reflexivity].
  - cbn [id name gpa]. do 5 (split; [assumption || reflexivity|]).
    split; [|intro C; destruct C; reflexivity].
    rewrite string_resize_length. reflexivity.
Qed.


(** X10. Input that ends inside [id]: the bytes that came replace the first
    bytes of the object representation of [id], the other bytes of [id] keep
    their old values, and [gpa] is not changed. *)
Theorem partial_id_splice (junk : Z) (ins : istream) (dst : Student) :
  is_good ins = true -> (length (unread ins) < int_bytes abi)%nat ->
  double_range (gpa dst) ->
  let '(_, _, s) := deserializeStudent abi junk ins dst in
  int_repr abi (id s) =
    unread ins ++ skipn (length (unread ins)) (int_repr abi (id dst)) /\
  gpa s = gpa dst.
Proof.
  intros Hg Hc Hd.
  pose proof (result_fields junk ins dst) as R. cbv zeta in R.
  destruct (read_short_spent ins (int_bytes abi) Hg Hc) as (i1 & E1 & S1).
  rewrite E1 in R. cbn [fst snd] in R.
  destruct (read_spent i1 double_bytes S1) as (i2 & E2 & _).
  rewrite E2 in R. cbn [fst snd] in R.
  destruct (deserializeStudent abi junk ins dst) as [[out ins'] s].
  destruct R as (Rid & Rgpa). split.
  - rewrite Rid. apply int_repr_of_repr.
    fold (store_prefix (unread ins) (int_repr abi (id dst))).
    rewrite store_prefix_length; unfold int_repr; rewrite to_mem_length;
      [reflexivity | lia].
  - rewrite Rgpa. change (store_prefix [] ?x) with x.
    apply double_of_repr_repr. exact Hd.
Qed.

(** X11. Input that ends inside [gpa]: [id] has been read whole, and the
    bytes that came replace the first bytes of the object representation of
    [gpa], whose other bytes keep their old values. *)
Theorem partial_gpa_splice (junk : Z) (ins : istream) (dst : Student)
    (idb t : list byte) :
  is_good ins = true -> unread ins = idb ++ t ->
  length idb = int_bytes abi -> (length t < double_bytes)%nat ->
  let '(_, _, s) := deserializeStudent abi junk ins dst in
  id s = int_of_repr abi idb /\
  double_repr abi (gpa s) =
    t ++ skipn (length t) (double_repr abi (gpa dst)).
Proof.
  intros Hg Hu Hi Hc.
  pose proof (result_fields junk ins dst) as R. cbv zeta in R.
  destruct (istream_read_n ins _ idb t Hg Hu Hi) as (E1 & U1).
  rewrite E1 in R. cbn [fst snd] in R.
  destruct (read_short_spent (advance ins (int_bytes abi)) double_bytes
              (advance_good _ _)) as (i2 & E2 & _); [rewrite U1; exact Hc|].
  rewrite E2, U1 in R. cbn [fst snd] in R.
  destruct (deserializeStudent abi junk ins dst) as [[out ins'] s].
  destruct R as (Rid & Rgpa). split.
  - rewrite Rid, store_prefix_full; [reflexivity|].
    unfold int_repr. rewrite to_mem_length. lia.
  - rewrite Rgpa. unfold double_repr at 1, double_of_repr.
    assert (L : length (store_prefix t (double_repr abi (gpa dst)))
                = double_bytes).
    { rewrite store_prefix_length; unfold double_repr;
        rewrite to_mem_length; [reflexivity | lia]. }
    rewrite <- L at 1. rewrite to_of_mem. reflexivity.
Qed.

(** X12. The size of a record in the file: the widths of the three fixed
    fields plus one byte for each byte of the name, whatever the values of
    the fields. *)
Theorem encoded_size (r : Student) :
  length (encode abi r) =
    (int_bytes abi + double_bytes + size_bytes abi + length (name r))%nat.
Proof. rewrite encode_length. reflexivity. Qed.

End MoreProperties.

(** ** Concrete runs *)

Ltac by_computation :=
  vm_compute;
  repeat match goal with |- _ /\ _ => split end;
  first [reflexivity | discriminate | (intro; discriminate) | lia].

Lemma lp64_le_ok : abi_ok lp64_le.
Proof. by_computation. Defined.

Lemma ilp32_be_ok : abi_ok ilp32_be.
Proof. by_computation. Defined.

(** The exponent field of [gpa_3_85] is that of [2, 4), and its significand
    is within half a unit in the last place of 3.85. *)
Lemma gpa_3_85_nearest :
  let m := 2 ^ 52 + gpa_3_85 mod 2 ^ 52 in
  gpa_3_85 / 2 ^ 63 = 0 /\ (gpa_3_85 / 2 ^ 52) mod 2 ^ 11 = 1024 /\
  2 * Z.abs (100 * m - 385 * 2 ^ 51) <= 100.
Proof. by_computation. Qed.

(** students.bin on x86-64. *)
Example alice_bytes_lp64_le :
  encode lp64_le alice =
    [x65; x00; x00; x00;
     xcd; xcc; xcc; xcc; xcc; xcc; x0e; x40;
     x0b; x00; x00; x00; x00; x00; x00; x00;
     x41; x6c; x69; x63; x65; x20; x53; x6d; x69; x74; x68].
Proof. reflexivity. Qed.

Example alice_bytes_ilp32_be :
  encode ilp32_be alice =
    [x00; x00; x00; x65;
     x40; x0e; xcc; xcc; xcc; xcc; xcc; xcd;
     x00; x00; x00; x0b;
     x41; x6c; x69; x63; x65; x20; x53; x6d; x69; x74; x68].
Proof. reflexivity. Qed.

(** Two bytes of input: half of [id] is overwritten, the call returns. *)
Example cut_inside_id :
  let '(out, ins', s) := decode lp64_le 0 (firstn 2 (encode lp64_le alice)) prior in
  out = Returned /\ ifail ins' = true /\ ieof ins' = true /\
  s = {| id := -65435; name := []; gpa := 1 |}.
Proof. vm_compute. repeat split. Qed.

(** Seven bytes of input and a large value where [nameLength] lives:
    [resize] throws after [id] and part of [gpa] were overwritten. *)
Example cut_inside_gpa_throws :
  let '(out, ins', s) :=
    decode lp64_le (2 ^ 63) (firstn 7 (encode lp64_le alice)) prior in
  out = Threw length_error /\ ifail ins' = true /\ ieof ins' = true /\
  id s = 101 /\ name s = name prior /\ gpa s <> gpa prior /\ gpa s <> gpa alice.
Proof. vm_compute. repeat split; discriminate. Qed.

(** Twenty-one bytes whose length prefix announces 2^40 name bytes, and the
    same with the largest length [resize] accepts: [resize] has no memory
    for that and throws [std::bad_alloc]; [id] and [gpa] have been
    overwritten, the name is as it was, and the stream is good with the one
    byte after the prefix unread. *)
Example prefix_without_payload :
  let run n :=
    decode lp64_le 0
      (int_repr lp64_le 5 ++ double_repr lp64_le 0 ++ size_repr lp64_le n
       ++ [x41]) prior in
  forall n, n = 2 ^ 40 \/ n = max_size lp64_le ->
  let '(out, ins', s) := run n in
  out = Threw bad_alloc /\ is_good ins' = true /\ unread ins' = [x41] /\
  s = {| id := 5; name := name prior; gpa := 0 |}.
Proof.
  intros run n [H|H]; subst n; vm_compute; repeat split.
Qed.

(** C2, counterexample. Twenty-five of the thirty-one bytes of [alice]: the
    input stops inside the name, yet the call returns normally, no exception
    is raised, and the object it filled is neither the one the caller had nor
    the record written: [id] and [gpa] are new, the name is "Alice" followed
    by six zero bytes. *)
Lemma truncation_not_detected :
  let bs := firstn 25 (encode lp64_le alice) in
  (length bs < length (encode lp64_le alice))%nat /\
  (exists ins',
     decode lp64_le 0 bs Student_default =
       (Returned, ins',
        {| id := 101;
           name := [x41; x6c; x69; x63; x65; x00; x00; x00; x00; x00; x00];
           gpa := gpa_3_85 |})) /\
  ~ (exists e ins', decode lp64_le 0 bs Student_default =
                      (Threw e, ins', Student_default)).
Proof.
  cbv zeta. split; [vm_compute; lia|]. split.
  - eexists. vm_compute. reflexivity.
  - intros (e & ins' & H). vm_compute in H. discriminate H.
Qed.

(** ** The theorems at concrete inputs *)

(** Round trip of [long_record] on x86-64. *)
Lemma roundtrip_fidelity_witness :
  valid_Student lp64_le long_record /\
  ((exists ins',
      decode lp64_le 0 (encode lp64_le long_record) prior =
        (Returned, ins', long_record) /\
      is_good ins' = true) /\
   encode lp64_le (snd (decode lp64_le 0 (encode lp64_le long_record) prior)) =
     encode lp64_le long_record).
Proof.
  assert (Hv : valid_Student lp64_le long_record) by by_computation.
  split; [exact Hv|].
  exact (roundtrip_fidelity lp64_le lp64_le_ok long_record 0 prior Hv).
Defined.

(** The first 25 bytes of [alice] read into [prior] on x86-64. *)
Lemma truncated_input_behaviour_witness :
  let ins := istream_open (firstn 25 (encode lp64_le alice)) in
  valid_Student lp64_le alice /\ is_good ins = true /\
  (25 < length (encode lp64_le alice))%nat /\
  unread ins = firstn 25 (encode lp64_le alice) /\
  let n := length (name alice) in
  let limit :=
    Z.max (heap_bytes lp64_le) (Z.of_nat (length (name prior))) in
  let '(out, ins', s) := deserializeStudent lp64_le 0 ins prior in
  ((25 < header_bytes lp64_le)%nat ->
   ifail ins' = true /\ ieof ins' = true /\ unread ins' = []) /\
  ((int_bytes lp64_le <= 25)%nat -> id s = id alice) /\
  ((int_bytes lp64_le + double_bytes <= 25)%nat -> gpa s = gpa alice) /\
  ((header_bytes lp64_le <= 25)%nat ->
   (Z.of_nat n <= limit ->
    out = Returned /\
    ifail ins' = true /\ ieof ins' = true /\ unread ins' = [] /\
    name s = firstn (25 - header_bytes lp64_le) (name alice) ++
             skipn (25 - header_bytes lp64_le)
                   (string_resize (name prior) n)) /\
   (limit < Z.of_nat n ->
    out = Threw bad_alloc /\ is_good ins' = true /\ name s = name prior)).
Proof.
  cbv zeta.
  assert (Hv : valid_Student lp64_le alice) by by_computation.
  assert (Hk : (25 < length (encode lp64_le alice))%nat) by (vm_compute; lia).
  split; [exact Hv|]. split; [reflexivity|]. split; [exact Hk|].
  split; [reflexivity|].
  exact (truncated_input_behaviour lp64_le lp64_le_ok alice 25 0
           (istream_open (firstn 25 (encode lp64_le alice))) prior
           Hv eq_refl Hk eq_refl).
Defined.

(** [nul_record] followed by one more byte: the name read has three bytes,
    the zero byte among them. *)
Lemma length_prefix_fidelity_witness :
  let ins := istream_open (encode lp64_le nul_record ++ [xff]) in
  let idb := int_repr lp64_le 5 in
  let gpab := double_repr lp64_le 0 in
  let lenb := size_repr lp64_le 3 in
  let tail := [x41; x00; x42; xff] in
  is_good ins = true /\ unread ins = idb ++ gpab ++ lenb ++ tail /\
  length idb = int_bytes lp64_le /\ length gpab = double_bytes /\
  length lenb = size_bytes lp64_le /\
  let n := size_of_repr lp64_le lenb in
  let '(out, _, s) := deserializeStudent lp64_le 0 ins prior in
  (out = Returned -> Z.of_nat (length (name s)) = n) /\
  (n <= max_size lp64_le -> n <= Z.of_nat (length tail) ->
   out = Returned /\ Z.of_nat (length (name s)) = n /\
   name s = firstn (Z.to_nat n) tail).
Proof.
  cbv zeta.
  do 5 (split; [reflexivity|]).
  exact (length_prefix_fidelity lp64_le 0
           (istream_open (encode lp64_le nul_record ++ [xff])) prior
           (int_repr lp64_le 5) (double_repr lp64_le 0) (size_repr lp64_le 3)
           [x41; x00; x42; xff] eq_refl eq_refl eq_refl eq_refl eq_refl).
Defined.

(** [alice] on the 32-bit big-endian platform, written to a sink that holds
    bytes already and read from a source with a byte after the record. *)
Lemma layout_and_read_order_witness :
  let ins := istream_open (encode ilp32_be alice ++ [x07]) in
  valid_Student ilp32_be alice /\ os_good used_sink = true /\
  is_good ins = true /\ unread ins = encode ilp32_be alice ++ [x07] /\
  let idb := int_repr ilp32_be (id alice) in
  let gpab := double_repr ilp32_be (gpa alice) in
  let lenb := size_repr ilp32_be (Z.of_nat (length (name alice))) in
  obuf (serializeStudent ilp32_be used_sink alice) =
    obuf used_sink ++ idb ++ gpab ++ lenb ++ name alice /\
  length idb = int_bytes ilp32_be /\ length gpab = 8%nat /\
  length lenb = size_bytes ilp32_be /\
  size_of_repr ilp32_be lenb = Z.of_nat (length (name alice)) /\
  let p := ipos ins in
  ilog (snd (fst (deserializeStudent ilp32_be 0 ins prior))) = ilog ins ++
    [ {| at_pos := p; wanted := int_bytes ilp32_be;
         got := int_bytes ilp32_be |};
      {| at_pos := (p + int_bytes ilp32_be)%nat; wanted := 8; got := 8 |};
      {| at_pos := (p + int_bytes ilp32_be + 8)%nat;
         wanted := size_bytes ilp32_be; got := size_bytes ilp32_be |};
      {| at_pos := (p + int_bytes ilp32_be + 8 + size_bytes ilp32_be)%nat;
         wanted := length (name alice); got := length (name alice) |} ].
Proof.
  cbv zeta.
  assert (Hv : valid_Student ilp32_be alice) by by_computation.
  split; [exact Hv|]. do 3 (split; [reflexivity|]).
  exact (layout_and_read_order ilp32_be ilp32_be_ok used_sink alice 0
           (istream_open (encode ilp32_be alice ++ [x07])) prior [x07]
           Hv eq_refl eq_refl eq_refl).
Defined.

(** [Student()] on x86-64: twenty bytes. *)
Lemma empty_name_boundary_witness :
  valid_Student lp64_le Student_default /\ name Student_default = [] /\
  length (encode lp64_le Student_default) =
    (int_bytes lp64_le + double_bytes + size_bytes lp64_le)%nat /\
  exists ins' s,
    decode lp64_le 0 (encode lp64_le Student_default) prior =
      (Returned, ins', s) /\
    is_good ins' = true /\ name s = [] /\ s = Student_default.
Proof.
  assert (Hv : valid_Student lp64_le Student_default) by by_computation.
  split; [exact Hv|]. split; [reflexivity|].
  exact (empty_name_boundary lp64_le lp64_le_ok Student_default 0 prior
           Hv eq_refl).
Defined.

(** [alice] followed by two bytes, which stay unread. *)
Lemma decode_consumes_exactly_witness :
  let ins := istream_open (encode lp64_le alice ++ [x07; x08]) in
  valid_Student lp64_le alice /\ is_good ins = true /\
  unread ins = encode lp64_le alice ++ [x07; x08] /\
  let '(out, ins', s) := deserializeStudent lp64_le 0 ins prior in
  let total :=
    (int_bytes lp64_le + double_bytes + size_bytes lp64_le +
     length (name alice))%nat in
  out = Returned /\
  ibuf ins' = ibuf ins /\
  ipos ins' = (ipos ins + total)%nat /\
  unread ins' = [x07; x08] /\
  is_good ins' = true /\
  exists evs,
    ilog ins' = ilog ins ++ evs /\
    Forall (fun e => (ipos ins <= at_pos e)%nat /\ got e = wanted e /\
                     (at_pos e + got e <= ipos ins + total)%nat) evs.
Proof.
  cbv zeta.
  assert (Hv : valid_Student lp64_le alice) by by_computation.
  split; [exact Hv|]. do 2 (split; [reflexivity|]).
  exact (decode_consumes_exactly lp64_le lp64_le_ok 0
           (istream_open (encode lp64_le alice ++ [x07; x08])) prior alice
           [x07; x08] Hv eq_refl eq_refl).
Defined.

(** [alice] written to a fresh sink, to a used one, and twice in a row. *)
Lemma encode_deterministic_witness :
  os_good ostream_open = true /\ os_good used_sink = true /\
  obuf (serializeStudent lp64_le ostream_open alice) =
    obuf ostream_open ++ encode lp64_le alice /\
  obuf (serializeStudent lp64_le used_sink alice) =
    obuf used_sink ++ encode lp64_le alice /\
  obuf (serializeStudent lp64_le
          (serializeStudent lp64_le ostream_open alice) alice) =
    obuf ostream_open ++ encode lp64_le alice ++ encode lp64_le alice.
Proof.
  do 2 (split; [reflexivity|]).
  exact (encode_deterministic lp64_le ostream_open used_sink alice
           eq_refl eq_refl).
Defined.

(** [alice] written to a sink that holds two bytes. *)
Lemma serialize_frame_witness :
  os_good used_sink = true /\
  let '(os', r') := serializeStudent_call lp64_le used_sink alice in
  r' = alice /\
  obuf os' = obuf used_sink ++ encode lp64_le alice /\
  firstn (length (obuf used_sink)) (obuf os') = obuf used_sink /\
  ofail os' = ofail used_sink /\ obad os' = obad used_sink /\
  os_good os' = true.
Proof.
  split; [reflexivity|].
  exact (serialize_frame lp64_le used_sink alice eq_refl).
Defined.

(** [main] on the 32-bit big-endian platform. *)
Lemma alice_scenario_witness :
  11 <= max_size ilp32_be /\
  length (encode ilp32_be alice) =
    (int_bytes ilp32_be + double_bytes + size_bytes ilp32_be + 11)%nat /\
  (exists ins',
     decode ilp32_be 0 (encode ilp32_be alice) prior =
       (Returned, ins', alice) /\
     is_good ins' = true) /\
  exists m,
    main ilp32_be 0 = Some m /\ students_bin m = encode ilp32_be alice /\
    deserializedStudent m = alice /\ verified m = true.
Proof.
  assert (Hm : 11 <= max_size ilp32_be) by by_computation.
  split; [exact Hm|].
  exact (alice_scenario ilp32_be ilp32_be_ok 0 prior Hm).
Defined.

(** [nul_record] read into [prior] and into [alice]. *)
Lemma decode_ignores_destination_witness :
  let ins := istream_open (encode lp64_le nul_record ++ [xff]) in
  let idb := int_repr lp64_le 5 in
  let gpab := double_repr lp64_le 0 in
  let lenb := size_repr lp64_le 3 in
  is_good ins = true /\
  unread ins = idb ++ gpab ++ lenb ++ [x41; x00; x42] ++ [xff] /\
  record_bytes lp64_le idb gpab lenb [x41; x00; x42] /\
  deserializeStudent lp64_le 0 ins prior =
    deserializeStudent lp64_le 9 ins alice /\
  snd (deserializeStudent lp64_le 0 ins prior) =
    {| id := int_of_repr lp64_le idb; name := [x41; x00; x42];
       gpa := double_of_repr lp64_le gpab |}.
Proof.
  cbv zeta.
  assert (Hb : record_bytes lp64_le (int_repr lp64_le 5)
                 (double_repr lp64_le 0) (size_repr lp64_le 3)
                 [x41; x00; x42]) by by_computation.
  split; [reflexivity|]. split; [reflexivity|]. split; [exact Hb|].
  exact (decode_ignores_destination lp64_le 0 9
           (istream_open (encode lp64_le nul_record ++ [xff])) prior alice
           (int_repr lp64_le 5) (double_repr lp64_le 0) (size_repr lp64_le 3)
           [x41; x00; x42] [xff] eq_refl eq_refl Hb).
Defined.

(** ** The further properties at concrete inputs *)

(** [alice] followed by one byte, parsed in two ways. *)
Lemma encode_prefix_free_witness :
  valid_Student lp64_le alice /\
  encode lp64_le alice ++ [x07] = encode lp64_le alice ++ [x07] /\
  (alice = alice /\ [x07] = [x07]).
Proof.
  assert (Hv : valid_Student lp64_le alice) by by_computation.
  split; [exact Hv|]. split; [reflexivity|].
  exact (encode_prefix_free lp64_le lp64_le_ok alice alice [x07] [x07]
           Hv Hv eq_refl).
Defined.

(** The bytes of [nul_record] followed by one byte, read into [prior]. *)
Lemma decode_then_encode_witness :
  let ins := istream_open (encode lp64_le nul_record ++ [xff]) in
  let idb := int_repr lp64_le 5 in
  let gpab := double_repr lp64_le 0 in
  let lenb := size_repr lp64_le 3 in
  is_good ins = true /\
  unread ins = idb ++ gpab ++ lenb ++ [x41; x00; x42] ++ [xff] /\
  record_bytes lp64_le idb gpab lenb [x41; x00; x42] /\
  let '(out, _, s) := deserializeStudent lp64_le 0 ins prior in
  out = Returned /\ valid_Student lp64_le s /\
  encode lp64_le s = idb ++ gpab ++ lenb ++ [x41; x00; x42].
Proof.
  cbv zeta.
  assert (Hb : record_bytes lp64_le (int_repr lp64_le 5)
                 (double_repr lp64_le 0) (size_repr lp64_le 3)
                 [x41; x00; x42]) by by_computation.
  split; [reflexivity|]. split; [reflexivity|]. split; [exact Hb|].
  exact (decode_then_encode lp64_le lp64_le_ok 0
           (istream_open (encode lp64_le nul_record ++ [xff])) prior
           (int_repr lp64_le 5) (double_repr lp64_le 0) (size_repr lp64_le 3)
           [x41; x00; x42] [xff] eq_refl eq_refl Hb).
Defined.

(** [alice] then [bob] written to a sink that holds two bytes, and read back
    from a source that has one more byte after them. *)
Lemma two_records_in_sequence_witness :
  let ins :=
    istream_open (encode lp64_le alice ++ encode lp64_le bob ++ [x07]) in
  valid_Student lp64_le alice /\ valid_Student lp64_le bob /\
  os_good used_sink = true /\ is_good ins = true /\
  unread ins =
    skipn (length (obuf used_sink))
          (obuf (serializeStudent lp64_le
                   (serializeStudent lp64_le used_sink alice) bob))
    ++ [x07] /\
  let '(o1, ins1, s1) := deserializeStudent lp64_le 0 ins prior in
  let '(o2, ins2, s2) := deserializeStudent lp64_le 0 ins1 s1 in
  o1 = Returned /\ s1 = alice /\ o2 = Returned /\ s2 = bob /\
  is_good ins2 = true /\ unread ins2 = [x07] /\
  ipos ins2 = (ipos ins + length (encode lp64_le alice)
               + length (encode lp64_le bob))%nat.
Proof.
  cbv zeta.
  assert (Ha : valid_Student lp64_le alice) by by_computation.
  assert (Hb : valid_Student lp64_le bob) by by_computation.
  split; [exact Ha|]. split; [exact Hb|]. do 3 (split; [reflexivity|]).
  exact (two_records_in_sequence lp64_le lp64_le_ok used_sink alice bob 0 0
           (istream_open (encode lp64_le alice ++ encode lp64_le bob ++ [x07]))
           prior [x07] Ha Hb eq_refl eq_refl eq_refl).
Defined.

(** A length prefix of 2^63 on x86-64. *)
Lemma oversized_length_throws_witness :
  let idb := int_repr lp64_le 5 in
  let gpab := double_repr lp64_le 0 in
  let lenb := size_repr lp64_le (2 ^ 63) in
  let ins := istream_open (idb ++ gpab ++ lenb ++ [x41]) in
  is_good ins = true /\ unread ins = idb ++ gpab ++ lenb ++ [x41] /\
  length idb = int_bytes lp64_le /\ length gpab = double_bytes /\
  length lenb = size_bytes lp64_le /\
  max_size lp64_le < size_of_repr lp64_le lenb /\
  let '(out, ins', s) := deserializeStudent lp64_le 0 ins prior in
  out = Threw length_error /\
  s = {| id := int_of_repr lp64_le idb; name := name prior;
         gpa := double_of_repr lp64_le gpab |} /\
  is_good ins' = true /\ unread ins' = [x41] /\
  ipos ins' = (ipos ins + header_bytes lp64_le)%nat.
Proof.
  cbv zeta.
  assert (Hm : max_size lp64_le
               < size_of_repr lp64_le (size_repr lp64_le (2 ^ 63)))
    by by_computation.
  do 5 (split; [reflexivity|]). split; [exact Hm|].
  exact (oversized_length_throws lp64_le 0
           (istream_open (int_repr lp64_le 5 ++ double_repr lp64_le 0 ++
                          size_repr lp64_le (2 ^ 63) ++ [x41])) prior
           (int_repr lp64_le 5) (double_repr lp64_le 0)
           (size_repr lp64_le (2 ^ 63)) [x41]
           eq_refl eq_refl eq_refl eq_refl eq_refl Hm).
Defined.

(** [alice] followed by one byte: the call returns and the stream is good. *)
Lemma good_stream_means_complete_witness :
  let ins := istream_open (encode lp64_le alice ++ [x07]) in
  let res := deserializeStudent lp64_le 0 ins prior in
  is_good ins = true /\
  res = (Returned, snd (fst res), snd res) /\
  is_good (snd (fst res)) = true /\
  exists idb gpab lenb payload rest,
    unread ins = idb ++ gpab ++ lenb ++ payload ++ rest /\
    record_bytes lp64_le idb gpab lenb payload /\
    snd res = {| id := int_of_repr lp64_le idb; name := payload;
                 gpa := double_of_repr lp64_le gpab |} /\
    unread (snd (fst res)) = rest.
Proof.
  cbv zeta.
  assert (E : deserializeStudent lp64_le 0
                (istream_open (encode lp64_le alice ++ [x07])) prior =
              (Returned,
               snd (fst (deserializeStudent lp64_le 0
                           (istream_open (encode lp64_le alice ++ [x07]))
                           prior)),
               snd (deserializeStudent lp64_le 0
                      (istream_open (encode lp64_le alice ++ [x07])) prior)))
    by (vm_compute; reflexivity).
  split; [reflexivity|]. split; [exact E|]. split; [reflexivity|].
  exact (good_stream_means_complete lp64_le 0
           (istream_open (encode lp64_le alice ++ [x07])) prior _ _
           eq_refl E eq_refl).
Defined.

(** A call on [failed_source] into [prior]. *)
Lemma no_input_keeps_fields_witness :
  (is_good failed_source = false \/ unread failed_source = []) /\
  int_range lp64_le (id prior) /\ double_range (gpa prior) /\
  let '(out, ins', s) := deserializeStudent lp64_le 3 failed_source prior in
  ibuf ins' = ibuf failed_source /\ ipos ins' = ipos failed_source /\
  ifail ins' = true /\
  id s = id prior /\ gpa s = gpa prior /\
  name s = string_resize (name prior) (length (name s)) /\
  (out <> Returned -> name s = name prior).
Proof.
  assert (Hi : int_range lp64_le (id prior)) by by_computation.
  assert (Hd : double_range (gpa prior)) by by_computation.
  split; [left; reflexivity|]. split; [exact Hi|]. split; [exact Hd|].
  exact (no_input_keeps_fields lp64_le lp64_le_ok 3 failed_source prior
           (or_introl eq_refl) Hi Hd).
Defined.


(** [alice] offered to a sink that is at end of file. *)
Lemma serialize_sink_not_good_witness :
  os_good failed_sink = false /\
  let os' := serializeStudent lp64_le failed_sink alice in
  obuf os' = obuf failed_sink /\ oeof os' = oeof failed_sink /\
  obad os' = obad failed_sink /\
  (ofail failed_sink = true -> ofail os' = true) /\
  (ofail failed_sink = false -> obad failed_sink = false ->
   ofail os' = false) /\
  os_good os' = false.
Proof.
  split; [reflexivity|].
  exact (serialize_sink_not_good lp64_le failed_sink alice eq_refl).
Defined.

(** The first two bytes of [alice], read into [prior]. *)
Lemma partial_id_splice_witness :
  let ins := istream_open (firstn 2 (encode lp64_le alice)) in
  is_good ins = true /\ (length (unread ins) < int_bytes lp64_le)%nat /\
  double_range (gpa prior) /\
  let '(_, _, s) := deserializeStudent lp64_le 0 ins prior in
  int_repr lp64_le (id s) =
    unread ins ++ skipn (length (unread ins)) (int_repr lp64_le (id prior)) /\
  gpa s = gpa prior.
Proof.
  cbv zeta.
  assert (Hc : (length (unread (istream_open (firstn 2 (encode lp64_le alice))))
                < int_bytes lp64_le)%nat) by (vm_compute; lia).
  assert (Hd : double_range (gpa prior)) by by_computation.
  split; [reflexivity|]. split; [exact Hc|]. split; [exact Hd|].
  exact (partial_id_splice lp64_le 0
           (istream_open (firstn 2 (encode lp64_le alice))) prior
           eq_refl Hc Hd).
Defined.

(** The first seven bytes of [alice], read into [prior]. *)
Lemma partial_gpa_splice_witness :
  let ins := istream_open (firstn 7 (encode lp64_le alice)) in
  let idb := int_repr lp64_le 101 in
  let t := [xcd; xcc; xcc] in
  is_good ins = true /\ unread ins = idb ++ t /\
  length idb = int_bytes lp64_le /\ (length t < double_bytes)%nat /\
  let '(_, _, s) := deserializeStudent lp64_le 0 ins prior in
  id s = int_of_repr lp64_le idb /\
  double_repr lp64_le (gpa s) =
    t ++ skipn (length t) (double_repr lp64_le (gpa prior)).
Proof.
  cbv zeta.
  assert (Hc : (length [xcd; xcc; xcc] < double_bytes)%nat)
    by (vm_compute; lia).
  do 3 (split; [reflexivity|]). split; [exact Hc|].
  exact (partial_gpa_splice lp64_le 0
           (istream_open (firstn 7 (encode lp64_le alice))) prior
           (int_repr lp64_le 101) [xcd; xcc; xcc]
           eq_refl eq_refl eq_refl Hc).
Defined.
